(** * whatsapp-categorizer-api: the categorize handler and its MCP client

    A shallow embedding of [handler] and [callMCP] (the serverless
    function that loads the filtered rows of an upload, sends them to the
    MCP tool over a WebSocket and stores the categories), with the
    properties of the batch shaping, of the row construction and of the
    settlement logic of the client. *)

From Stdlib Require Import PrimFloat.
From stdpp Require Import base list strings.

Local Open Scope string_scope.
Local Open Scope list_scope.

Set Warnings "-register-all,-inexact-float".

(** ** JavaScript values

    The handler works on untyped data ([r: any], the result of
    [JSON.parse]), so values are kept as a JavaScript value tree.
    Numbers are IEEE doubles. An object is its list of own properties. *)

Inductive jsval : Type :=
  | JUndefined
  | JNull
  | JBool (b : bool)
  | JNum (x : float)
  | JStr (s : string)
  | JArr (elems : list jsval)
  | JObj (props : list (string * jsval)).

(** ToBoolean: [undefined], [null], [false], [0], [-0], [NaN] and the
    empty string are falsy, everything else (arrays and objects too) is
    truthy. *)
Definition truthy (v : jsval) : bool :=
  match v with
  | JUndefined | JNull => false
  | JBool b => b
  | JNum x => negb (PrimFloat.eqb x 0 || PrimFloat.is_nan x)
  | JStr s => negb (String.eqb s "")
  | JArr _ | JObj _ => true
  end.

(** [a || b] *)
Definition js_or (a b : jsval) : jsval := if truthy a then a else b.

(** [Array.isArray(v)] *)
Definition isArray (v : jsval) : bool :=
  match v with JArr _ => true | _ => false end.

(** [typeof v === "number"] *)
Definition isNumber (v : jsval) : bool :=
  match v with JNum _ => true | _ => false end.

(** [v !== s] for a string [s] (strict comparison: no coercion). *)
Definition strict_neq_str (v : jsval) (s : string) : bool :=
  match v with
  | JStr t => negb (String.eqb t s)
  | _ => true
  end.

Fixpoint own_prop (props : list (string * jsval)) (k : string) : jsval :=
  match props with
  | [] => JUndefined
  | (k', v) :: rest => if String.eqb k' k then v else own_prop rest k
  end.

(** [v.k] for the data properties the code reads ([id], [ok],
    [assignments], [categories], [coverage], [error]): [None] is the
    TypeError of a property read on [null] or [undefined]; primitives
    and arrays have no such property. *)
Definition get_prop (v : jsval) (k : string) : option jsval :=
  match v with
  | JUndefined | JNull => None
  | JObj props => Some (own_prop props k)
  | _ => Some JUndefined
  end.

(** [a?.[i]] on the value the handler destructures as [assignments]. *)
Definition opt_index (a : jsval) (i : nat) : jsval :=
  match a with
  | JArr elems => default JUndefined (elems !! i)
  | _ => JUndefined
  end.

(** Whether [String(v)] throws a TypeError, for a value that came out
    of [JSON.parse]. An object with an own [toString] property (which is
    never callable) has no way to a primitive: its own [valueOf], when
    it has one, is not callable either, and the inherited one returns
    the object. An array joins the conversions of its elements. Every
    other value converts. *)
Fixpoint string_throws (v : jsval) : bool :=
  match v with
  | JObj props => existsb (λ kv, String.eqb kv.1 "toString") props
  | JArr elems => existsb string_throws elems
  | _ => false
  end.

(** ** Constants *)

Definition WS_TIMEOUT_MS : N := 30000%N.
Definition MAX_ITEMS : nat := 500.

(** ** Data model *)

(** A row of [urls_filtered] as selected by the handler. *)
Record CandidateRecord := mkCandidate {
  rec_id : jsval;
  raw_text : jsval;
  url : jsval;
  matched_keywords : jsval
}.

(** An item of the request sent to the MCP tool. *)
Record WireItem := mkItem {
  item_i : nat;
  item_text : jsval;
  item_url : jsval;
  item_keywords : jsval
}.

(** A row inserted into [urls_processed]. *)
Record Row := mkRow {
  filtered_id : jsval;
  category : jsval;
  confidence : float
}.

(** The value [callMCP] resolves with. *)
Record McpResult := mkResult {
  assignments : jsval;
  categories : jsval;
  coverage : jsval
}.

(** ** Batch preparer and row construction *)

Definition to_item (i : nat) (r : CandidateRecord) : WireItem :=
  mkItem i (raw_text r) (url r) (matched_keywords r).

(** [list.slice(0, M).map((r, i) => ({ i, text, url, keywords }))] *)
Definition shape_items (M : nat) (l : list CandidateRecord) : list WireItem :=
  imap to_item (take M l).

Definition items (l : list CandidateRecord) : list WireItem :=
  shape_items MAX_ITEMS l.

Definition to_row (assigned : jsval) (i : nat) (r : CandidateRecord) : Row :=
  mkRow (rec_id r) (js_or (opt_index assigned i) (JStr "Other")) 0.9%float.

(** [list.map((r, i) => ({ filtered_id, category, confidence }))] *)
Definition rows (l : list CandidateRecord) (assigned : jsval) : list Row :=
  imap (to_row assigned) l.

(** ** The MCP client: [callMCP]

    [callMCP] builds a promise whose executor creates the socket, arms
    the timer and registers four handlers. The call is modelled as the
    state the closures share ([settled], the pending timer, the state
    of the promise) together with the log of what the client has done,
    and one transition per callback. *)

(** What a call can be rejected with. *)
Inductive jsError : Type :=
  | NewError (message : jsval)  (* [new Error(message)] *)
  | WsError (err : string)      (* the error object the socket emitted *)
  | TypeError.                  (* thrown by the engine, e.g. on destructuring [undefined] *)

Inductive Outcome : Type :=
  | Resolved (r : McpResult)
  | Rejected (e : jsError).

(** The result of [JSON.parse(String(buf))] on an inbound frame. *)
Inductive Frame : Type :=
  | Malformed               (* [JSON.parse] throws *)
  | Parsed (msg : jsval).

(** What the environment can deliver to the call. *)
Inductive Event : Type :=
  | EvOpen
  | EvMessage (frame : Frame)
  | EvError (err : string)
  | EvClose
  | EvTimeout.              (* [WS_TIMEOUT_MS] have elapsed since [setTimeout] *)

(** What the client does, in the order it does it. *)
Inductive Action : Type :=
  | ANewWebSocket (wsUrl : string)
  | ASetTimeout (ms : N)
  | ASend (id tool : string) (payload : list WireItem)
  | AClearTimeout
  | AWsClose
  | ACallResolve (r : McpResult)
  | ACallReject (e : jsError).

Record Call := mkCall {
  settled : bool;
  timer_pending : bool;
  promise : option Outcome;
  actions : list Action
}.

Definition act (a : Action) (c : Call) : Call :=
  mkCall (settled c) (timer_pending c) (promise c) (actions c ++ [a]).

(** [settled = true] *)
Definition set_settled (c : Call) : Call :=
  mkCall true (timer_pending c) (promise c) (actions c).

(** [clearTimeout(timer)] *)
Definition clearTimeout (c : Call) : Call :=
  act AClearTimeout (mkCall (settled c) false (promise c) (actions c)).

(** [ws.close()] *)
Definition ws_close (c : Call) : Call := act AWsClose c.

(** The resolving functions of a promise only act the first time one of
    them is called. *)
Definition fulfil (o : Outcome) (c : Call) : Call :=
  mkCall (settled c) (timer_pending c)
         (match promise c with None => Some o | Some o' => Some o' end)
         (actions c).

Definition resolve (r : McpResult) (c : Call) : Call :=
  act (ACallResolve r) (fulfil (Resolved r) c).

Definition reject (e : jsError) (c : Call) : Call :=
  act (ACallReject e) (fulfil (Rejected e) c).

(** The property reads of the message handler, on a value that is
    neither [null] nor [undefined]. *)
Definition field (msg : jsval) (k : string) : jsval :=
  default JUndefined (get_prop msg k).

(** "Normalize outputs" *)
Definition normalize (msg : jsval) : McpResult :=
  mkResult
    (if isArray (field msg "assignments") then field msg "assignments" else JArr [])
    (if isArray (field msg "categories") then field msg "categories" else JArr [])
    (if isNumber (field msg "coverage") then field msg "coverage" else JNum 1).

Section Client.
Variables (wsUrl tool id : string) (payload : list WireItem).

(** The state when the executor returns: the socket has been created,
    the timer runs, nothing has been sent. *)
Definition call_start : Call :=
  mkCall false true None [ANewWebSocket wsUrl; ASetTimeout WS_TIMEOUT_MS].

(** The [setTimeout] callback. *)
Definition timer_fired (c : Call) : Call :=
  if settled c then c
  else reject (NewError (JStr "mcp_timeout")) (ws_close (set_settled c)).

(** [ws.on("open", ...)] *)
Definition on_open (c : Call) : Call := act (ASend id tool payload) c.

(** [ws.on("message", ...)]: everything that throws inside the [try]
    is swallowed by the [catch], and what the callback had done by then
    stays done. [JSON.parse] and the read of [msg.id] throw before
    anything was done; [new Error(...)] throws, when its argument has
    no conversion to a string, after the timer was cleared and
    [settled] was set, and before [reject] and [ws.close()]. *)
Definition on_message (frame : Frame) (c : Call) : Call :=
  match frame with
  | Malformed => c
  | Parsed msg =>
      match get_prop msg "id" with
      | None => c
      | Some msg_id =>
          if strict_neq_str msg_id id then c
          else
            let c := set_settled (clearTimeout c) in
            if truthy (field msg "ok") then ws_close (resolve (normalize msg) c)
            else
              let message := js_or (field msg "error") (JStr "mcp_tool_error") in
              if string_throws message then c
              else ws_close (reject (NewError message) c)
      end
  end.

(** [ws.on("error", ...)] *)
Definition on_error (err : string) (c : Call) : Call :=
  if settled c then c
  else reject (WsError err) (set_settled (clearTimeout c)).

(** [ws.on("close", ...)] *)
Definition on_close (c : Call) : Call :=
  if negb (settled c)
  then reject (NewError (JStr "mcp_closed")) (set_settled (clearTimeout c))
  else c.

(** One event of the socket or of the timer; a timer that was cleared
    or that has fired does not fire. *)
Definition step (c : Call) (ev : Event) : Call :=
  match ev with
  | EvOpen => on_open c
  | EvMessage frame => on_message frame c
  | EvError err => on_error err c
  | EvClose => on_close c
  | EvTimeout =>
      if timer_pending c
      then timer_fired (mkCall (settled c) false (promise c) (actions c))
      else c
  end.

Definition run (c : Call) (evs : list Event) : Call := foldl step c evs.

(** The call under the events [evs]. *)
Definition callMCP (evs : list Event) : Call := run call_start evs.

End Client.

(** ** The handler *)

(** Everything the handler reads from outside: the request, the
    process environment, the answer of the store to the select and to
    the insert, and, for the call to the MCP tool, the id drawn for it
    and the events of its socket and timer. *)
Record World := mkWorld {
  req_method : string;
  req_body : option (option string);  (* [None]: no body; else its [upload_id] *)
  SUPABASE_URL : option string;
  SUPABASE_SERVICE_ROLE_KEY : option string;
  MCP_WS_URL : option string;
  select_data : option (list CandidateRecord);
  select_error : option string;
  mcp_id : string;
  mcp_events : list Event;
  insert_error : option string
}.

Inductive Response : Type :=
  | End405
  | ErrorJson (status : nat) (error : string)
  | CaughtJson (e : jsError)   (* status 500, [e?.message || "server_error"] *)
  | OkJson (upload_id : string) (processed : nat) (coverage categories : jsval).

(** A run of the handler: its response ([None] while the awaited call
    is pending), the call it made and the rows it handed to the store,
    if any. *)
Record HandlerRun := mkRun {
  response : option Response;
  call : option Call;
  inserted : option (list Row)
}.

(** [req.body.upload_id], as far as it can be read. *)
Definition req_upload_id (w : World) : option string :=
  match req_body w with
  | Some upload_id => upload_id
  | None => None
  end.

(** [!s] for an optional string *)
Definition missing (s : option string) : bool :=
  match s with
  | None => true
  | Some t => String.eqb t ""
  end.

(** Lines 10-35: the checks and the select. Either an early response,
    or the upload id, the socket URL and [filtered ?? []]. Destructuring
    a body that is not there throws, and the [catch] of the handler
    answers. *)
Definition entry (w : World) : Response + (string * string * list CandidateRecord) :=
  if negb (String.eqb (req_method w) "POST") then inl End405
  else if bool_decide (req_body w = None) then inl (CaughtJson TypeError)
  else if missing (req_upload_id w) then inl (ErrorJson 400 "missing upload_id")
  else if missing (SUPABASE_URL w) || missing (SUPABASE_SERVICE_ROLE_KEY w)
  then inl (ErrorJson 500 "server_misconfig: missing Supabase envs")
  else if missing (MCP_WS_URL w)
  then inl (ErrorJson 500 "server_misconfig: missing MCP_WS_URL")
  else
    match select_error w with
    | Some message => inl (ErrorJson 400 message)
    | None =>
        inr (default "" (req_upload_id w), default "" (MCP_WS_URL w),
             default [] (select_data w))
    end.

(** Lines 36-70, once the awaited call has settled with [o]. *)
Definition after_call (w : World) (upload_id : string)
    (l : list CandidateRecord) (o : Outcome) : Response * option (list Row) :=
  match o with
  | Rejected e => (CaughtJson e, None)
  | Resolved r =>
      let rs := rows l (assignments r) in
      let ok :=
        OkJson upload_id (length rs)
          (if isNumber (coverage r) then coverage r else JNull)
          (if isArray (categories r) then categories r else JArr []) in
      if decide (0 < length rs) then
        match insert_error w with
        | Some message => (ErrorJson 400 message, Some rs)
        | None => (ok, Some rs)
        end
      else (ok, None)
  end.

Definition handler (w : World) : HandlerRun :=
  match entry w with
  | inl early => mkRun (Some early) None None
  | inr (upload_id, wsUrl, l) =>
      if decide (length l = 0)
      then mkRun (Some (OkJson upload_id 0 (JNum 1) (JArr []))) None None
      else
        let c := callMCP wsUrl "categorize_whatsapp" (mcp_id w) (items l) (mcp_events w) in
        match promise c with
        | None => mkRun None (Some c) None
        | Some o =>
            let '(resp, ins) := after_call w upload_id l o in
            mkRun (Some resp) (Some c) ins
        end
  end.

(** ** Vocabulary of the properties *)

(** The correlation id a frame carries, when it can be read. *)
Definition parsed_id (frame : Frame) : option jsval :=
  match frame with
  | Malformed => None
  | Parsed msg => get_prop msg "id"
  end.

(** The states a call goes through: its timer is pending exactly while
    [settled] is not set, and its promise has no outcome before
    [settled] is set. *)
Definition coherent (c : Call) : Prop :=
  timer_pending c = negb (settled c) ∧ (settled c = false → promise c = None).

(** A call whose [settled] is backed by an outcome of its promise. *)
Definition answered (c : Call) : Prop :=
  settled c = true → promise c ≠ None.

(** The text the message callback gives to [new Error]. *)
Definition refusal (msg : jsval) : jsval :=
  js_or (field msg "error") (JStr "mcp_tool_error").

(** A frame that jams a call: it carries the id of the request, its
    [ok] is falsy and its [error] has no conversion to a string, so that
    [new Error] throws in the middle of the callback. *)
Definition jams (id : string) (frame : Frame) : bool :=
  match frame with
  | Malformed => false
  | Parsed msg =>
      match get_prop msg "id" with
      | Some msg_id =>
          negb (strict_neq_str msg_id id) && negb (truthy (field msg "ok"))
          && string_throws (refusal msg)
      | None => false
      end
  end.

(** No message of the trace carries the id of the request. *)
Definition unmatched (id : string) (evs : list Event) : Prop :=
  ∀ frame, EvMessage frame ∈ evs → parsed_id frame ≠ Some (JStr id).

Definition timed_out : Outcome := Rejected (NewError (JStr "mcp_timeout")).
Definition closed_early : Outcome := Rejected (NewError (JStr "mcp_closed")).

(** Whatever a call resolves with has gone through [normalize]. *)
Definition normalized (c : Call) : Prop :=
  ∀ r, promise c = Some (Resolved r) → ∃ msg, r = normalize msg.

(** [setTimeout] calls in the log. *)
Definition sets_timer (a : Action) : bool :=
  match a with ASetTimeout _ => true | _ => false end.

(** ** The race, read off the events *)

(** The outcome a frame gives to a promise that has none: a frame with
    the id of the request resolves when its [ok] is truthy and rejects
    when it is not, unless the error cannot be built. *)
Definition frame_outcome (id : string) (frame : Frame) : option Outcome :=
  match frame with
  | Malformed => None
  | Parsed msg =>
      match get_prop msg "id" with
      | Some (JStr s) =>
          if String.eqb s id then
            if truthy (field msg "ok") then Some (Resolved (normalize msg))
            else if string_throws (refusal msg) then None
            else Some (Rejected (NewError (refusal msg)))
          else None
      | _ => None
      end
  end.

(** The winner of the race: the outcome of the first event that gives
    one. The socket error, the close and the expiry of the timer give
    one unless the call is jammed ([settled] set by a frame that gave no
    outcome); frames give theirs in either case. *)
Fixpoint race (id : string) (jammed : bool) (evs : list Event) : option Outcome :=
  match evs with
  | [] => None
  | EvOpen :: evs => race id jammed evs
  | EvMessage frame :: evs =>
      match frame_outcome id frame with
      | Some o => Some o
      | None => race id (jammed || jams id frame) evs
      end
  | EvError err :: evs =>
      if jammed then race id jammed evs else Some (Rejected (WsError err))
  | EvClose :: evs =>
      if jammed then race id jammed evs else Some closed_early
  | EvTimeout :: evs =>
      if jammed then race id jammed evs else Some timed_out
  end.

Definition is_open (ev : Event) : bool :=
  match ev with EvOpen => true | _ => false end.

Definition is_send (a : Action) : bool :=
  match a with ASend _ _ _ => true | _ => false end.

Definition is_new_socket (a : Action) : bool :=
  match a with ANewWebSocket _ => true | _ => false end.

(** What the callbacks do when they settle a call. *)
Definition is_settling (a : Action) : bool :=
  match a with
  | AClearTimeout | AWsClose | ACallResolve _ | ACallReject _ => true
  | _ => false
  end.

(** ** The stub of [api/categorize.ts]

    The first version of the endpoint: the same two checks of the
    request, then a fixed answer. It has no [try]: destructuring a body
    that is not there throws out of it, and the stub has no answer. It
    builds the store client from the two environment variables without
    looking at them; what the client library does when one is missing
    is not part of this model, and the stub has no answer here in that
    case either. *)
Definition stub_handler (w : World) : option Response :=
  if negb (String.eqb (req_method w) "POST") then Some End405
  else if bool_decide (req_body w = None) then None
  else if missing (req_upload_id w) then Some (ErrorJson 400 "missing upload_id")
  else if missing (SUPABASE_URL w) || missing (SUPABASE_SERVICE_ROLE_KEY w) then None
  else Some (OkJson (default "" (req_upload_id w)) 0 (JNum 1) (JArr [])).

(** The world [w] with other events on the socket of its call. *)
Definition with_events (w : World) (evs : list Event) : World :=
  mkWorld (req_method w) (req_body w) (SUPABASE_URL w)
    (SUPABASE_SERVICE_ROLE_KEY w) (MCP_WS_URL w) (select_data w) (select_error w)
    (mcp_id w) evs (insert_error w).

(** ** Example data *)

(** The frames of the examples: the answer to the request ["k3f9"] for
    two items, the same answer under another id, and an answer that
    only says it succeeded. *)
Definition answer_AB : jsval :=
  JObj [("id", JStr "k3f9"); ("ok", JBool true);
        ("assignments", JArr [JStr "A"; JStr "B"]);
        ("coverage", JNum 0.8)].

Definition answer_other_id : jsval :=
  JObj [("id", JStr "zz01"); ("ok", JBool true);
        ("assignments", JArr [JStr "A"; JStr "B"]);
        ("coverage", JNum 0.8)].

Definition answer_bare : jsval :=
  JObj [("id", JStr "k3f9"); ("ok", JBool true)].

Definition two_candidates : list CandidateRecord :=
  [ mkCandidate (JNum 11) (JStr "hola https://a.example") (JStr "https://a.example")
      (JArr [JStr "promo"]);
    mkCandidate (JNum 12) (JStr "oferta https://b.example") (JStr "https://b.example")
      (JArr []) ].

(** A request for the upload ["u1"] in a configured process; the store
    returns [l], the id drawn for the call is ["k3f9"] and the socket
    and timer produce [evs]. *)
Definition world_of (l : list CandidateRecord) (evs : list Event) : World :=
  mkWorld "POST" (Some (Some "u1"))
    (Some "https://db.example") (Some "service-key") (Some "wss://mcp.example")
    (Some l) None "k3f9" evs None.

(** A batch of 501 candidates, one more than the cap. *)
Definition over_cap : list CandidateRecord :=
  replicate 501 (mkCandidate (JNum 7) (JStr "texto") JNull (JArr [])).

(** A refusal of the request ["k3f9"] whose [error] is an object with
    a [toString] entry. *)
Definition answer_unconvertible : jsval :=
  JObj [("id", JStr "k3f9"); ("ok", JBool false);
        ("error", JObj [("toString", JNum 1)])].

(** The tool refuses the request ["k3f9"], with and without a reason. *)
Definition answer_refused : jsval :=
  JObj [("id", JStr "k3f9"); ("ok", JBool false); ("error", JStr "quota exceeded")].

Definition answer_refused_bare : jsval :=
  JObj [("id", JStr "k3f9"); ("ok", JBool false)].

(** The same request when the insert fails. *)
Definition world_insert_fails : World :=
  mkWorld "POST" (Some (Some "u1"))
    (Some "https://db.example") (Some "service-key") (Some "wss://mcp.example")
    (Some two_candidates) None "k3f9" [EvOpen; EvMessage (Parsed answer_AB)]
    (Some "duplicate key").


(** ** Properties of the batch preparer *)

Section Preparer.
Variable M : nat.

Lemma shape_items_length (l : list CandidateRecord) :
  length (shape_items M l) = length l `min` M.
Proof. unfold shape_items. by rewrite length_imap, length_take, Nat.min_comm. Qed.

Lemma shape_items_lookup (l : list CandidateRecord) (k : nat) :
  shape_items M l !! k =
    if decide (k < M) then to_item k <$> l !! k else None.
Proof.
  unfold shape_items. rewrite list_lookup_imap.
  case_decide.
  - by rewrite lookup_take_lt.
  - rewrite lookup_take_ge by lia. done.
Qed.

Lemma shape_items_positions (l : list CandidateRecord) :
  item_i <$> shape_items M l = seq 0 (length l `min` M).
Proof.
  apply list_eq. intros k.
  rewrite list_lookup_fmap, shape_items_lookup.
  destruct (decide (k < length l `min` M)) as [Hk|Hk].
  - rewrite lookup_seq_lt by done.
    rewrite decide_True by lia.
    destruct (lookup_lt_is_Some_2 l k) as [r ->]; [lia|]. done.
  - rewrite lookup_seq_ge by lia.
    case_decide; [|done].
    rewrite lookup_ge_None_2 by lia. done.
Qed.
End Preparer.

(** C8: for every cap [M] and every candidate list of length [N], the
    preparer emits exactly [min N M] wire items, their positions are
    [0, 1, ..., min N M - 1] in this order, and the item at position [k]
    is built from the record at index [k] of the input list. *)
Theorem preparer_emits_min_contiguous (M : nat) (l : list CandidateRecord) :
  length (shape_items M l) = length l `min` M
  ∧ item_i <$> shape_items M l = seq 0 (length l `min` M)
  ∧ ∀ k : nat,
      shape_items M l !! k =
        if decide (k < length l `min` M)
        then (λ r, mkItem k (raw_text r) (url r) (matched_keywords r)) <$> l !! k
        else None.
Proof.
  split; [apply shape_items_length|].
  split; [apply shape_items_positions|].
  intros k. rewrite shape_items_lookup.
  destruct (decide (k < M)), (decide (k < length l `min` M)); try done; try lia.
  rewrite lookup_ge_None_2 by lia. done.
Qed.

(** ** Properties of the client *)

Lemma strict_neq_str_false (v : jsval) (s : string) :
  strict_neq_str v s = false ↔ v = JStr s.
Proof.
  destruct v; simpl; try (split; [done | discriminate]).
  rewrite negb_false_iff, String.eqb_eq.
  split; [by intros -> | by intros [= ->]].
Qed.

Lemma strict_neq_str_true (v : jsval) (s : string) :
  strict_neq_str v s = true ↔ v ≠ JStr s.
Proof.
  rewrite <- strict_neq_str_false. destruct (strict_neq_str v s); split; done.
Qed.

Section ClientFacts.
Variables (wsUrl tool id : string) (payload : list WireItem).

Local Abbreviation step := (step tool id payload).
Local Abbreviation run := (run tool id payload).
Local Abbreviation callMCP := (callMCP wsUrl tool id payload).

Lemma on_message_other (frame : Frame) (c : Call) :
  parsed_id frame ≠ Some (JStr id) → on_message id frame c = c.
Proof.
  destruct frame as [|msg]; simpl; [done|].
  destruct (get_prop msg "id") as [v|]; [|done].
  intros Hne.
  assert (strict_neq_str v id = true) as ->; [|done].
  apply strict_neq_str_true. congruence.
Qed.

Lemma on_message_match (msg : jsval) (c : Call) :
  get_prop msg "id" = Some (JStr id) →
  on_message id (Parsed msg) c =
    if truthy (field msg "ok")
    then ws_close (resolve (normalize msg) (set_settled (clearTimeout c)))
    else if string_throws (refusal msg)
    then set_settled (clearTimeout c)
    else ws_close (reject (NewError (refusal msg)) (set_settled (clearTimeout c))).
Proof.
  intros Hid. simpl. rewrite Hid.
  assert (strict_neq_str (JStr id) id = false) as ->
    by by apply strict_neq_str_false.
  done.
Qed.

(** What the message callback does, by the three ways a frame can go. *)
Lemma on_message_cases (frame : Frame) (c : Call) :
  (parsed_id frame ≠ Some (JStr id) ∧ jams id frame = false
   ∧ on_message id frame c = c)
  ∨ (parsed_id frame = Some (JStr id) ∧ jams id frame = true
     ∧ on_message id frame c = set_settled (clearTimeout c))
  ∨ (parsed_id frame = Some (JStr id) ∧ jams id frame = false
     ∧ ∃ o : Outcome,
         (∀ r, o = Resolved r → ∃ msg, r = normalize msg)
         ∧ on_message id frame c
           = ws_close (act (match o with
                            | Resolved r => ACallResolve r
                            | Rejected e => ACallReject e
                            end)
                         (fulfil o (set_settled (clearTimeout c))))).
Proof.
  destruct frame as [|msg]; simpl; [by left|].
  destruct (get_prop msg "id") as [v|] eqn:Hid; [|by left].
  destruct (strict_neq_str v id) eqn:Hv; simpl.
  { left. apply strict_neq_str_true in Hv. split; [congruence|done]. }
  apply strict_neq_str_false in Hv as ->.
  destruct (truthy (field msg "ok")); simpl.
  { right; right. do 2 (split; [done|]).
    exists (Resolved (normalize msg)). split; [|done]. intros r [= <-]. eauto. }
  fold (refusal msg).
  destruct (string_throws (refusal msg)); simpl.
  { right; left. done. }
  right; right. do 2 (split; [done|]).
  exists (Rejected (NewError (refusal msg))). split; [done|]. done.
Qed.

Lemma run_cons (c : Call) (ev : Event) (evs : list Event) :
  run c (ev :: evs) = run (step c ev) evs.
Proof. done. Qed.

(** A promise that is settled keeps its outcome. *)
Lemma step_promise_kept (c : Call) (ev : Event) (o : Outcome) :
  promise c = Some o → promise (step c ev) = Some o.
Proof.
  intros Ho. destruct ev as [|frame|err| |]; simpl.
  - done.
  - destruct (on_message_cases frame c) as [(_ & _ & ->)|[(_ & _ & ->)|(_ & _ & o' & _ & ->)]];
      simpl; by rewrite ?Ho.
  - unfold on_error. destruct (settled c); simpl; [done|]. by rewrite Ho.
  - unfold on_close. destruct (settled c); simpl; [done|]. by rewrite Ho.
  - destruct (timer_pending c); [|done].
    unfold timer_fired. simpl. destruct (settled c); simpl; [done|]. by rewrite Ho.
Qed.

Lemma run_promise_kept (evs : list Event) (c : Call) (o : Outcome) :
  promise c = Some o → promise (run c evs) = Some o.
Proof.
  revert c. induction evs as [|ev evs IH]; intros c Ho; [done|].
  rewrite run_cons. by apply IH, step_promise_kept.
Qed.

Lemma call_start_coherent : coherent (call_start wsUrl).
Proof. by split. Qed.

Lemma step_coherent (c : Call) (ev : Event) :
  coherent c → coherent (step c ev).
Proof.
  unfold coherent. intros [Ht Hp].
  destruct ev as [|frame|err| |]; simpl.
  - done.
  - destruct (on_message_cases frame c) as [(_ & _ & ->)|[(_ & _ & ->)|(_ & _ & o' & _ & ->)]];
      simpl; done.
  - unfold on_error. destruct (settled c) eqn:Hs; simpl; rewrite ?Hs; done.
  - unfold on_close. destruct (settled c) eqn:Hs; simpl; rewrite ?Hs; done.
  - rewrite Ht. unfold timer_fired.
    destruct (settled c) eqn:Hs; simpl; rewrite ?Hs; done.
Qed.

Lemma run_coherent (evs : list Event) (c : Call) :
  coherent c → coherent (run c evs).
Proof.
  revert c. induction evs as [|ev evs IH]; intros c Hc; [done|].
  rewrite run_cons. by apply IH, step_coherent.
Qed.

Lemma callMCP_coherent (evs : list Event) : coherent (callMCP evs).
Proof. apply run_coherent, call_start_coherent. Qed.

End ClientFacts.

Section Unmatched.
Variables (wsUrl tool id : string) (payload : list WireItem).

Local Abbreviation step := (step tool id payload).
Local Abbreviation run := (run tool id payload).
Local Abbreviation callMCP := (callMCP wsUrl tool id payload).

Lemma step_settled_kept (c : Call) (ev : Event) :
  settled c = true → settled (step c ev) = true.
Proof.
  intros Hs. destruct ev as [|frame|err| |]; simpl.
  - done.
  - destruct (on_message_cases id frame c)
      as [(_ & _ & ->)|[(_ & _ & ->)|(_ & _ & o' & _ & ->)]]; done.
  - unfold on_error. by rewrite Hs.
  - unfold on_close. by rewrite Hs.
  - destruct (timer_pending c); [|done]. unfold timer_fired. simpl. by rewrite Hs.
Qed.

Lemma run_settled_kept (evs : list Event) (c : Call) :
  settled c = true → settled (run c evs) = true.
Proof.
  revert c. induction evs as [|ev evs IH]; intros c Hs; [done|].
  rewrite run_cons. by apply IH, step_settled_kept.
Qed.

Lemma timeout_settles (c : Call) :
  coherent c → settled (step c EvTimeout) = true.
Proof.
  unfold coherent. intros [Ht _]. simpl. rewrite Ht. unfold timer_fired.
  destruct (settled c) eqn:Hs; simpl; rewrite ?Hs; done.
Qed.

(** A frame that does not carry the id of the request cannot jam. *)
Lemma other_id_no_jam (frame : Frame) :
  parsed_id frame ≠ Some (JStr id) → jams id frame = false.
Proof.
  intros Hne.
  destruct (on_message_cases id frame (call_start wsUrl))
    as [(_ & H & _)|[(H & _)|(_ & H & _)]]; done.
Qed.

(** As long as no frame jams, [settled] is backed by an outcome. *)
Lemma step_answered (c : Call) (ev : Event) :
  answered c →
  (∀ frame, ev = EvMessage frame → jams id frame = false) →
  answered (step c ev).
Proof.
  unfold answered. intros Hc Hev.
  destruct ev as [|frame|err| |]; simpl.
  - done.
  - destruct (on_message_cases id frame c)
      as [(_ & _ & ->)|[(_ & Hj & _)|(_ & _ & o' & _ & ->)]].
    + done.
    + by rewrite (Hev frame) in Hj.
    + simpl. intros _. by destruct (promise c).
  - unfold on_error. destruct (settled c) eqn:Hs; simpl; rewrite ?Hs; [done|].
    intros _. by destruct (promise c).
  - unfold on_close. destruct (settled c) eqn:Hs; simpl; rewrite ?Hs; [done|].
    intros _. by destruct (promise c).
  - destruct (timer_pending c); [|done].
    unfold timer_fired. destruct (settled c) eqn:Hs; simpl; rewrite ?Hs; [done|].
    intros _. by destruct (promise c).
Qed.

Lemma run_answered (evs : list Event) (c : Call) :
  answered c →
  (∀ frame, EvMessage frame ∈ evs → jams id frame = false) →
  answered (run c evs).
Proof.
  revert c. induction evs as [|ev evs IH]; intros c Hc Hev; [done|].
  rewrite run_cons. apply IH.
  - apply step_answered; [done|]. intros frame ->. apply Hev. by left.
  - intros frame Hin. apply Hev. by right.
Qed.

Lemma step_unmatched_outcome (c : Call) (ev : Event) :
  promise c = None →
  (∀ frame, ev = EvMessage frame → parsed_id frame ≠ Some (JStr id)) →
  promise (step c ev) = None
  ∨ promise (step c ev) = Some timed_out
  ∨ promise (step c ev) = Some closed_early
  ∨ ∃ err, ev = EvError err ∧ promise (step c ev) = Some (Rejected (WsError err)).
Proof.
  intros Hp Hev. destruct ev as [|frame|err| |]; simpl.
  - by left.
  - rewrite on_message_other by by apply Hev. by left.
  - unfold on_error. destruct (settled c); simpl; [by left|].
    rewrite Hp. right; right; right. by exists err.
  - unfold on_close. destruct (settled c); simpl; [by left|].
    rewrite Hp. right; right; by left.
  - destruct (timer_pending c); [|by left].
    unfold timer_fired. simpl. destruct (settled c); simpl; [by left|].
    rewrite Hp. right; by left.
Qed.

Lemma run_unmatched_outcome (evs : list Event) (c : Call) :
  promise c = None → unmatched id evs →
  promise (run c evs) = None
  ∨ promise (run c evs) = Some timed_out
  ∨ promise (run c evs) = Some closed_early
  ∨ ∃ err, EvError err ∈ evs ∧ promise (run c evs) = Some (Rejected (WsError err)).
Proof.
  revert c. induction evs as [|ev evs IH]; intros c Hp Hun; [by left|].
  rewrite run_cons.
  assert (unmatched id evs) as Hun'.
  { intros frame Hin. apply Hun. by right. }
  destruct (step_unmatched_outcome c ev Hp) as [H|[H|[H|(err & -> & H)]]].
  - intros frame ->. apply Hun. by left.
  - destruct (IH _ H Hun') as [?|[?|[?|(err & Hin & ?)]]]; eauto.
    right; right; right. exists err. split; [by right|done].
  - right; left. by apply run_promise_kept.
  - right; right; left. by apply run_promise_kept.
  - right; right; right. exists err. split; [by left|].
    by apply run_promise_kept.
Qed.

Lemma run_timeout_settles (evs : list Event) (c : Call) :
  coherent c → EvTimeout ∈ evs → settled (run c evs) = true.
Proof.
  revert c. induction evs as [|ev evs IH]; intros c Hc Hin.
  - by apply elem_of_nil in Hin.
  - rewrite run_cons. apply elem_of_cons in Hin as [<-|Hin].
    + by apply run_settled_kept, timeout_settles.
    + apply IH; [by apply step_coherent|done].
Qed.

End Unmatched.

(** C4 as the code has it: while a call waits, the message callback
    acts on a frame (sets [settled]) if and only if the id the frame
    parses to is the id of the request, only such a frame can give the
    call an outcome, and it does when its [ok] is truthy or its error
    can be turned into a string. A frame with any other id (or none
    that can be read) leaves the whole state of the call as it was: not
    resolved, not failed, the timer still the one that was armed. Hence
    a trace in which no frame carries the id never resolves the call:
    it ends in the timeout, in the closed failure or in the error the
    socket reported, and it has ended once the deadline has passed. *)
Theorem response_accepted_only_for_matching_id
    (wsUrl tool id : string) (payload : list WireItem) (c : Call) (frame : Frame) :
  settled c = false →
  promise c = None →
  (settled (on_message id frame c) = true ↔ parsed_id frame = Some (JStr id))
  ∧ (promise (on_message id frame c) ≠ None → parsed_id frame = Some (JStr id))
  ∧ (parsed_id frame = Some (JStr id) → jams id frame = false →
     promise (on_message id frame c) ≠ None)
  ∧ (parsed_id frame ≠ Some (JStr id) → on_message id frame c = c)
  ∧ ∀ evs : list Event,
      unmatched id evs →
      (∀ r, promise (callMCP wsUrl tool id payload evs) ≠ Some (Resolved r))
      ∧ (promise (callMCP wsUrl tool id payload evs) = None
         ∨ promise (callMCP wsUrl tool id payload evs) = Some timed_out
         ∨ promise (callMCP wsUrl tool id payload evs) = Some closed_early
         ∨ ∃ err, EvError err ∈ evs
             ∧ promise (callMCP wsUrl tool id payload evs) = Some (Rejected (WsError err)))
      ∧ (EvTimeout ∈ evs → promise (callMCP wsUrl tool id payload evs) ≠ None).
Proof.
  intros Hs Hp.
  assert (on_message id frame c = c → settled (on_message id frame c) = false
          ∧ promise (on_message id frame c) = None) as Hsame
    by (by intros ->).
  pose proof (on_message_cases id frame c) as Hcases.
  split; [|split; [|split; [|split]]].
  - destruct Hcases as [(Hne & _ & He)|[(Hid & _ & ->)|(Hid & _ & o & _ & ->)]].
    + destruct (Hsame He) as [-> _]. split; [done|by intros ?].
    + done.
    + done.
  - destruct Hcases as [(Hne & _ & He)|[(Hid & _ & _)|(Hid & _ & _)]]; [|done..].
    destruct (Hsame He) as [_ ->]. done.
  - intros Hid Hj.
    destruct Hcases as [(Hne & _ & _)|[(_ & Hj' & _)|(_ & _ & o & _ & ->)]].
    + done.
    + congruence.
    + simpl. by rewrite Hp.
  - apply on_message_other.
  - intros evs Hun.
    pose proof (run_unmatched_outcome tool id payload evs (call_start wsUrl)
                  eq_refl Hun) as Hout.
    fold (callMCP wsUrl tool id payload evs) in Hout.
    split; [|split].
    + intros r Hr. unfold timed_out, closed_early in Hout.
      destruct Hout as [H|[H|[H|(err & _ & H)]]]; congruence.
    + done.
    + intros Hin.
      apply (run_answered tool id payload evs (call_start wsUrl)).
      * by intros ?.
      * intros f Hf. by apply (other_id_no_jam wsUrl), Hun.
      * apply run_timeout_settles; [apply call_start_coherent|done].
Qed.

Lemma response_accepted_only_for_matching_id_witness :
  promise (on_message "k3f9" (Parsed answer_AB) (call_start "wss://mcp.example")) ≠ None
  ∧ on_message "k3f9" (Parsed answer_other_id) (call_start "wss://mcp.example")
    = call_start "wss://mcp.example".
Proof.
  split.
  - apply (response_accepted_only_for_matching_id "wss://mcp.example"
             "categorize_whatsapp" "k3f9" [] (call_start "wss://mcp.example")
             (Parsed answer_AB) eq_refl eq_refl); reflexivity.
  - apply (response_accepted_only_for_matching_id "wss://mcp.example"
             "categorize_whatsapp" "k3f9" [] (call_start "wss://mcp.example")
             (Parsed answer_other_id) eq_refl eq_refl).
    discriminate.
Defined.

(** A trace in which no frame carries the id of the request and the
    socket reports an error ends in that error, which is neither the
    timeout nor the closed failure; and a frame that carries the id can
    leave the call without an outcome. *)
Lemma unmatched_trace_fails_with_socket_error :
  unmatched "k3f9" [EvOpen; EvMessage (Parsed answer_other_id); EvError "ECONNRESET"]
  ∧ promise (callMCP "wss://mcp.example" "categorize_whatsapp" "k3f9" []
               [EvOpen; EvMessage (Parsed answer_other_id); EvError "ECONNRESET"])
    = Some (Rejected (WsError "ECONNRESET"))
  ∧ Rejected (WsError "ECONNRESET") ≠ timed_out
  ∧ Rejected (WsError "ECONNRESET") ≠ closed_early
  ∧ parsed_id (Parsed answer_unconvertible) = Some (JStr "k3f9")
  ∧ promise (on_message "k3f9" (Parsed answer_unconvertible)
               (call_start "wss://mcp.example")) = None.
Proof.
  split; [|by repeat split].
  intros frame Hin.
  repeat (apply elem_of_cons in Hin as [Hin|Hin]; [try discriminate|]).
  - by injection Hin as ->.
  - by apply elem_of_nil in Hin.
Qed.

(** C6: a matching response whose [ok] is truthy resolves the call, and
    the value it resolves with has [assignments] equal to the field of
    the message when that is an array and to the empty array when it is
    absent or anything else, [categories] likewise, and [coverage] equal
    to the field when that is a number and to 1 otherwise. *)
Theorem success_response_normalized (id : string) (c : Call) (msg : jsval) :
  promise c = None →
  get_prop msg "id" = Some (JStr id) →
  truthy (field msg "ok") = true →
  ∃ r : McpResult,
    promise (on_message id (Parsed msg) c) = Some (Resolved r)
    ∧ (∀ elems, field msg "assignments" = JArr elems → assignments r = JArr elems)
    ∧ ((∀ elems, field msg "assignments" ≠ JArr elems) → assignments r = JArr [])
    ∧ (∀ elems, field msg "categories" = JArr elems → categories r = JArr elems)
    ∧ ((∀ elems, field msg "categories" ≠ JArr elems) → categories r = JArr [])
    ∧ (∀ x, field msg "coverage" = JNum x → coverage r = JNum x)
    ∧ ((∀ x, field msg "coverage" ≠ JNum x) → coverage r = JNum 1).
Proof.
  intros Hp Hid Hok. exists (normalize msg).
  split.
  { rewrite on_message_match by done. rewrite Hok. simpl. by rewrite Hp. }
  unfold normalize. simpl.
  repeat split.
  - by intros elems ->.
  - intros Hno. destruct (field msg "assignments"); try done. by destruct (Hno elems).
  - by intros elems ->.
  - intros Hno. destruct (field msg "categories"); try done. by destruct (Hno elems).
  - by intros x ->.
  - intros Hno. destruct (field msg "coverage"); try done. by destruct (Hno x).
Qed.

Lemma success_response_normalized_witness :
  ∃ r : McpResult,
    promise (on_message "k3f9" (Parsed answer_AB) (call_start "wss://mcp.example"))
      = Some (Resolved r)
    ∧ assignments r = JArr [JStr "A"; JStr "B"]
    ∧ categories r = JArr []
    ∧ coverage r = JNum 0.8.
Proof.
  destruct (success_response_normalized "k3f9" (call_start "wss://mcp.example")
              answer_AB eq_refl eq_refl eq_refl)
    as (r & Hr & Ha & _ & _ & Hc & Hv & _).
  exists r. split; [exact Hr|]. split; [|split].
  - apply Ha. reflexivity.
  - apply Hc. discriminate.
  - apply Hv. reflexivity.
Defined.

(** ** Properties of the row construction *)

Lemma rows_length (l : list CandidateRecord) (assigned : jsval) :
  length (rows l assigned) = length l.
Proof. apply length_imap. Qed.

Lemma rows_lookup (l : list CandidateRecord) (assigned : jsval) (i : nat) :
  rows l assigned !! i = to_row assigned i <$> l !! i.
Proof. apply list_lookup_imap. Qed.

Lemma truthy_str (s : string) : truthy (JStr s) = true ↔ s ≠ "".
Proof.
  simpl. rewrite negb_true_iff. split.
  - intros H ->. by rewrite String.eqb_refl in H.
  - intros H. by apply String.eqb_neq.
Qed.

Lemma normalize_no_assignments (msg : jsval) :
  (∀ elems, field msg "assignments" ≠ JArr elems) →
  assignments (normalize msg) = JArr [].
Proof.
  intros Hno. unfold normalize. simpl.
  destruct (field msg "assignments"); try done. by destruct (Hno elems).
Qed.

(** C7: the row built for the record at position [i] carries the id of
    that record, the category [assignments[i]] when that entry is there
    and is not empty (not falsy) and ["Other"] when it is missing or
    empty, and the confidence 0.9 whatever the tool answered; when the
    response has no [assignments] array, every row has ["Other"]. *)
Theorem row_category_assigned_or_other
    (l : list CandidateRecord) (assigned : jsval) (i : nat) (r : CandidateRecord) :
  l !! i = Some r →
  (∃ row : Row,
     rows l assigned !! i = Some row
     ∧ filtered_id row = rec_id r
     ∧ confidence row = 0.9%float
     ∧ category row =
         (if truthy (opt_index assigned i) then opt_index assigned i else JStr "Other")
     ∧ (∀ elems s, assigned = JArr elems → elems !! i = Some (JStr s) → s ≠ "" →
          category row = JStr s)
     ∧ (∀ elems, assigned = JArr elems →
          elems !! i = None ∨ elems !! i = Some (JStr "") →
          category row = JStr "Other")
     ∧ ((∀ elems, assigned ≠ JArr elems) → category row = JStr "Other"))
  ∧ ∀ msg : jsval,
      (∀ elems, field msg "assignments" ≠ JArr elems) →
      ∀ row, row ∈ rows l (assignments (normalize msg)) → category row = JStr "Other".
Proof.
  intros Hr. split.
  - exists (to_row assigned i r).
    split; [by rewrite rows_lookup, Hr|].
    do 3 (split; [done|]).
    simpl. unfold js_or. split; [|split].
    + intros elems s -> Hs Hne. simpl. rewrite Hs. simpl.
      apply String.eqb_neq in Hne. by rewrite Hne.
    + intros elems -> [Hs|Hs]; simpl; by rewrite Hs.
    + intros Hno. destruct assigned; try done. by destruct (Hno elems).
  - intros msg Hno row Hin.
    rewrite normalize_no_assignments in Hin by done.
    apply list_elem_of_lookup in Hin as [k Hk].
    rewrite rows_lookup in Hk.
    destruct (l !! k) as [r'|]; [|done].
    by injection Hk as <-.
Qed.

Lemma row_category_assigned_or_other_witness :
  (∃ row : Row,
     rows two_candidates (JArr [JStr "A"; JStr "B"]) !! 1 = Some row
     ∧ filtered_id row = JNum 12
     ∧ confidence row = 0.9%float
     ∧ category row = JStr "B")
  ∧ ∀ row, row ∈ rows two_candidates (assignments (normalize answer_bare)) →
      category row = JStr "Other".
Proof.
  destruct (row_category_assigned_or_other two_candidates (JArr [JStr "A"; JStr "B"]) 1
              (mkCandidate (JNum 12) (JStr "oferta https://b.example")
                 (JStr "https://b.example") (JArr [])) eq_refl)
    as [(row & Hrow & Hid & Hconf & Hcat & _) Hbare].
  split.
  - exists row. repeat split; [exact Hrow | exact Hid | exact Hconf | exact Hcat].
  - apply (Hbare answer_bare). discriminate.
Defined.

(** ** Properties of the handler *)

Section Resolved.
Variables (wsUrl tool id : string) (payload : list WireItem).

Lemma step_normalized (c : Call) (ev : Event) :
  normalized c → normalized (step tool id payload c ev).
Proof.
  intros Hc r. destruct (promise c) as [o|] eqn:Hp.
  { rewrite (step_promise_kept tool id payload c ev o Hp). intros [= ->]. by apply Hc. }
  destruct ev as [|frame|err| |]; simpl.
  - by rewrite Hp.
  - destruct (on_message_cases id frame c)
      as [(_ & _ & ->)|[(_ & _ & ->)|(_ & _ & o & Ho & ->)]]; simpl; rewrite Hp;
      [done..|].
    intros [= ->]. by apply Ho.
  - unfold on_error. destruct (settled c); simpl; by rewrite Hp.
  - unfold on_close. destruct (settled c); simpl; by rewrite Hp.
  - destruct (timer_pending c); [|by rewrite Hp].
    unfold timer_fired. simpl. destruct (settled c); simpl; by rewrite Hp.
Qed.

Lemma run_normalized (evs : list Event) (c : Call) :
  normalized c → normalized (run tool id payload c evs).
Proof.
  revert c. induction evs as [|ev evs IH]; intros c Hc; [done|].
  rewrite run_cons. by apply IH, step_normalized.
Qed.

Lemma callMCP_normalized (evs : list Event) :
  normalized (callMCP wsUrl tool id payload evs).
Proof. apply run_normalized. by intros r. Qed.

End Resolved.

Lemma normalize_coverage_number (msg : jsval) :
  isNumber (coverage (normalize msg)) = true.
Proof. simpl. by destruct (isNumber (field msg "coverage")) eqn:H. Qed.

Lemma normalize_arrays (msg : jsval) :
  isArray (assignments (normalize msg)) = true
  ∧ isArray (categories (normalize msg)) = true.
Proof.
  simpl. split.
  - by destruct (isArray (field msg "assignments")) eqn:H.
  - by destruct (isArray (field msg "categories")) eqn:H.
Qed.

(** C10: whenever a call resolves, the [coverage] it resolves with is a
    number, and so is the [coverage] of every success response of the
    handler: the [null] of the final response is never produced. *)
Theorem surfaced_coverage_is_number (w : World) :
  (∀ (wsUrl tool : string) (payload : list WireItem) (r : McpResult),
     promise (callMCP wsUrl tool (mcp_id w) payload (mcp_events w)) = Some (Resolved r) →
     isNumber (coverage r) = true)
  ∧ ∀ (upload_id : string) (processed : nat) (cov cats : jsval),
      response (handler w) = Some (OkJson upload_id processed cov cats) →
      isNumber cov = true ∧ cov ≠ JNull.
Proof.
  assert (∀ wsUrl tool payload r,
    promise (callMCP wsUrl tool (mcp_id w) payload (mcp_events w)) = Some (Resolved r) →
    isNumber (coverage r) = true) as Hcall.
  { intros wsUrl tool payload r Hr.
    destruct (callMCP_normalized wsUrl tool (mcp_id w) payload (mcp_events w) r Hr)
      as [msg ->].
    apply normalize_coverage_number. }
  split; [exact Hcall|].
  intros upload_id processed cov cats.
  unfold handler.
  destruct (entry w) as [early|[[uid wsUrl] l]] eqn:He.
  { simpl. intros [= ->]. revert He. unfold entry.
    repeat (case_match; try discriminate). }
  destruct (decide (length l = 0)); simpl.
  { by intros [= <- <- <- <-]. }
  destruct (promise _) as [[r|e]|] eqn:Hp; simpl; try discriminate.
  pose proof (Hcall _ _ _ _ Hp) as Hnum. rewrite Hnum.
  assert (coverage r ≠ JNull) by (by destruct (coverage r)).
  destruct (decide (0 < length (rows l (assignments r)))); simpl.
  - destruct (insert_error w); simpl; [discriminate|]. by intros [= <- <- <- <-].
  - by intros [= <- <- <- <-].
Qed.

Lemma surfaced_coverage_is_number_witness :
  response (handler (world_of two_candidates [EvOpen; EvMessage (Parsed answer_AB); EvClose]))
    = Some (OkJson "u1" 2 (JNum 0.8) (JArr []))
  ∧ isNumber (JNum 0.8) = true ∧ JNum 0.8 ≠ JNull.
Proof.
  split; [reflexivity|].
  apply (proj2 (surfaced_coverage_is_number
                  (world_of two_candidates [EvOpen; EvMessage (Parsed answer_AB); EvClose]))
           "u1" 2 (JNum 0.8) (JArr [])).
  reflexivity.
Defined.

(** C9: when the store has no candidate for the upload, the handler
    answers [{processed: 0, coverage: 1, categories: []}] at once: it
    makes no call (no socket is created) and hands no rows to the
    store. *)
Theorem empty_batch_short_circuits
    (w : World) (upload_id wsUrl : string) (l : list CandidateRecord) :
  entry w = inr (upload_id, wsUrl, l) →
  length l = 0 →
  handler w = mkRun (Some (OkJson upload_id 0 (JNum 1) (JArr []))) None None.
Proof.
  intros He Hl. unfold handler. rewrite He. by rewrite decide_True.
Qed.

Lemma empty_batch_short_circuits_witness :
  handler (world_of [] [EvOpen; EvMessage (Parsed answer_AB)])
  = mkRun (Some (OkJson "u1" 0 (JNum 1) (JArr []))) None None.
Proof.
  apply (empty_batch_short_circuits
           (world_of [] [EvOpen; EvMessage (Parsed answer_AB)]) "u1" "wss://mcp.example" []).
  - reflexivity.
  - reflexivity.
Defined.

(** C1 as the code has it: the rows are built from the whole candidate
    list, not from the capped one. When the call resolves there are
    exactly [N] rows, one per record and in the order of the list, the
    records at positions at and beyond the cap included (their category
    is [assignments[i]] when that is there and not falsy, ["Other"]
    otherwise), these rows are handed to the store, and [processed] is
    [N]. *)
Theorem rows_cover_whole_list
    (w : World) (upload_id wsUrl : string) (l : list CandidateRecord) (r : McpResult) :
  entry w = inr (upload_id, wsUrl, l) →
  l ≠ [] →
  promise (callMCP wsUrl "categorize_whatsapp" (mcp_id w) (items l) (mcp_events w))
    = Some (Resolved r) →
  insert_error w = None →
  (∃ cov cats,
     response (handler w) = Some (OkJson upload_id (length l) cov cats))
  ∧ inserted (handler w) = Some (rows l (assignments r))
  ∧ length (rows l (assignments r)) = length l
  ∧ ∀ (i : nat) (rec : CandidateRecord),
      l !! i = Some rec →
      rows l (assignments r) !! i =
        Some (mkRow (rec_id rec)
                (if truthy (opt_index (assignments r) i)
                 then opt_index (assignments r) i else JStr "Other")
                0.9%float).
Proof.
  intros He Hne Hp Hins.
  assert (length l ≠ 0) as Hlen by (by destruct l).
  unfold handler. rewrite He. rewrite decide_False by done. simpl.
  rewrite Hp. simpl. rewrite rows_length, Hins.
  rewrite decide_True by lia. simpl.
  split; [eauto|]. split; [done|]. split; [done|].
  intros i rec Hi. by rewrite rows_lookup, Hi.
Qed.

Lemma rows_cover_whole_list_witness :
  (∃ cov cats,
     response (handler (world_of over_cap [EvOpen; EvMessage (Parsed answer_AB)]))
       = Some (OkJson "u1" 501 cov cats))
  ∧ length (rows over_cap (JArr [JStr "A"; JStr "B"])) = 501.
Proof.
  destruct (rows_cover_whole_list
              (world_of over_cap [EvOpen; EvMessage (Parsed answer_AB)])
              "u1" "wss://mcp.example" over_cap
              (mkResult (JArr [JStr "A"; JStr "B"]) (JArr []) (JNum 0.8)))
    as (Hresp & _ & Hlen & _).
  - reflexivity.
  - discriminate.
  - vm_compute. reflexivity.
  - reflexivity.
  - split; [exact Hresp | exact Hlen].
Defined.

(** With 501 candidates and the cap at 500, the handler sends 500 items
    and still builds, stores and counts 501 rows; the record at position
    500 is not left out, it gets the category ["Other"]. *)
Lemma rows_not_capped :
  length over_cap = 501
  ∧ MAX_ITEMS = 500
  ∧ length (items over_cap) = 500
  ∧ response (handler (world_of over_cap [EvOpen; EvMessage (Parsed answer_AB)]))
    = Some (OkJson "u1" 501 (JNum 0.8) (JArr []))
  ∧ length <$> inserted (handler (world_of over_cap [EvOpen; EvMessage (Parsed answer_AB)]))
    = Some 501
  ∧ 501 ≠ 501 `min` MAX_ITEMS
  ∧ (inserted (handler (world_of over_cap [EvOpen; EvMessage (Parsed answer_AB)]))
       ≫= (λ rs, rs !! 500))
    = Some (mkRow (JNum 7) (JStr "Other") 0.9%float).
Proof. vm_compute. repeat split; try reflexivity. discriminate. Qed.

(** ** The deadline and the settlement guard *)

Section Log.
Variables (wsUrl tool id : string) (payload : list WireItem).

(** A callback only appends to the log, and never arms a timer. *)
Lemma step_actions (c : Call) (ev : Event) :
  ∃ added : list Action,
    actions (step tool id payload c ev) = actions c ++ added
    ∧ Forall (λ a, sets_timer a = false) added.
Proof.
  destruct ev as [|frame|err| |]; simpl.
  - by exists [ASend id tool payload]; repeat constructor.
  - destruct (on_message_cases id frame c)
      as [(_ & _ & ->)|[(_ & _ & ->)|(_ & _ & o & _ & ->)]]; simpl.
    + by exists []; rewrite app_nil_r.
    + eexists; (split; [reflexivity|]); by repeat constructor.
    + rewrite <- !app_assoc; simpl.
      eexists; (split; [reflexivity|]); destruct o; by repeat constructor.
  - unfold on_error. destruct (settled c); simpl; [by exists []; rewrite app_nil_r|].
    rewrite <- !app_assoc; simpl. eexists; (split; [reflexivity|]); by repeat constructor.
  - unfold on_close. destruct (settled c); simpl; [by exists []; rewrite app_nil_r|].
    rewrite <- !app_assoc; simpl. eexists; (split; [reflexivity|]); by repeat constructor.
  - destruct (timer_pending c); [|by exists []; rewrite app_nil_r].
    unfold timer_fired. simpl.
    destruct (settled c); simpl; [by exists []; rewrite app_nil_r|].
    rewrite <- !app_assoc; simpl. eexists; (split; [reflexivity|]); by repeat constructor.
Qed.

Lemma run_actions (evs : list Event) (c : Call) :
  ∃ added : list Action,
    actions (run tool id payload c evs) = actions c ++ added
    ∧ Forall (λ a, sets_timer a = false) added.
Proof.
  revert c. induction evs as [|ev evs IH]; intros c.
  - exists []. by rewrite app_nil_r.
  - rewrite run_cons.
    destruct (step_actions c ev) as (a1 & H1 & F1).
    destruct (IH (step tool id payload c ev)) as (a2 & H2 & F2).
    exists (a1 ++ a2). rewrite H2, H1, app_assoc. split; [done|].
    by apply Forall_app.
Qed.

(** Once a call is settled, the timer, the error and the close
    callbacks do nothing at all. *)
Lemma guarded_callbacks_idle (c : Call) (err : string) :
  coherent c → settled c = true →
  step tool id payload c EvTimeout = c
  ∧ step tool id payload c (EvError err) = c
  ∧ step tool id payload c EvClose = c.
Proof.
  unfold coherent. intros [Ht _] Hs. rewrite Hs in Ht.
  simpl. unfold on_error, on_close. by rewrite Ht, Hs.
Qed.

(** The outcome a caller observes never changes after it is there. *)
Lemma outcome_one_shot (evs late : list Event) (o : Outcome) :
  promise (callMCP wsUrl tool id payload evs) = Some o →
  promise (callMCP wsUrl tool id payload (evs ++ late)) = Some o.
Proof.
  intros Ho. unfold callMCP, run. rewrite foldl_app.
  by apply (run_promise_kept tool id payload late).
Qed.

(** The timeout and the matching response close the socket (the
    response, when the callback runs to its end). *)
Lemma timeout_and_match_close (c : Call) (msg : jsval) :
  settled c = false → timer_pending c = true →
  AWsClose ∈ actions (step tool id payload c EvTimeout)
  ∧ (get_prop msg "id" = Some (JStr id) → jams id (Parsed msg) = false →
     AWsClose ∈ actions (step tool id payload c (EvMessage (Parsed msg)))).
Proof.
  intros Hs Ht. split.
  - simpl. rewrite Ht. unfold timer_fired. simpl. rewrite Hs. simpl.
    rewrite !elem_of_app, !list_elem_of_singleton. tauto.
  - intros Hid Hj. change (step tool id payload c (EvMessage (Parsed msg)))
      with (on_message id (Parsed msg) c).
    destruct (on_message_cases id (Parsed msg) c)
      as [(Hne & _)|[(_ & Hj' & _)|(_ & _ & o & _ & ->)]]; [done|congruence|].
    simpl. rewrite !elem_of_app, !list_elem_of_singleton. tauto.
Qed.

(** The error callback, when it acts, clears the timer and rejects:
    this is all it does. *)
Lemma error_callback_log (c : Call) (err : string) :
  settled c = false →
  actions (step tool id payload c (EvError err))
  = actions c ++ [AClearTimeout; ACallReject (WsError err)].
Proof.
  intros Hs. simpl. unfold on_error. rewrite Hs. simpl.
  by rewrite <- app_assoc.
Qed.

(** The message callback acts on a matching frame whether or not the
    call is settled. *)
Lemma message_callback_unguarded (c : Call) (msg : jsval) :
  get_prop msg "id" = Some (JStr id) → jams id (Parsed msg) = false →
  ∃ a : Action,
    actions (step tool id payload c (EvMessage (Parsed msg)))
    = actions c ++ [AClearTimeout; a; AWsClose].
Proof.
  intros Hid Hj. change (step tool id payload c (EvMessage (Parsed msg)))
    with (on_message id (Parsed msg) c).
  destruct (on_message_cases id (Parsed msg) c)
    as [(Hne & _)|[(_ & Hj' & _)|(_ & _ & o & _ & ->)]]; [done|congruence|].
  simpl. rewrite <- !app_assoc. simpl. eauto.
Qed.

End Log.

(** C5 as the code has it: the timer is armed by the executor, right
    after the socket is created and before it is open; nothing has been
    sent then. The open callback sends the request and leaves the timer
    alone, and no callback arms another timer: the deadline runs from
    the creation of the call. *)
Theorem deadline_armed_at_creation (wsUrl tool id : string) (payload : list WireItem) :
  timer_pending (callMCP wsUrl tool id payload []) = true
  ∧ actions (callMCP wsUrl tool id payload [])
    = [ANewWebSocket wsUrl; ASetTimeout WS_TIMEOUT_MS]
  ∧ (∀ c : Call,
       timer_pending (on_open tool id payload c) = timer_pending c
       ∧ actions (on_open tool id payload c) = actions c ++ [ASend id tool payload])
  ∧ ∀ evs : list Event,
      ∃ later : list Action,
        actions (callMCP wsUrl tool id payload evs)
        = ANewWebSocket wsUrl :: ASetTimeout WS_TIMEOUT_MS :: later
        ∧ Forall (λ a, sets_timer a = false) later.
Proof.
  split; [done|]. split; [done|]. split; [done|].
  intros evs.
  destruct (run_actions tool id payload evs (call_start wsUrl)) as (later & H & F).
  by exists later.
Qed.

(** The deadline passes while the socket is still connecting: the call
    fails with the timeout although no request was ever sent. *)
Lemma deadline_runs_before_send :
  promise (callMCP "wss://mcp.example" "categorize_whatsapp" "k3f9" [] [EvTimeout])
  = Some timed_out
  ∧ actions (callMCP "wss://mcp.example" "categorize_whatsapp" "k3f9" [] [EvTimeout])
    = [ANewWebSocket "wss://mcp.example"; ASetTimeout WS_TIMEOUT_MS; AWsClose;
       ACallReject (NewError (JStr "mcp_timeout"))]
  ∧ ∀ i t p,
      ASend i t p ∉ actions (callMCP "wss://mcp.example" "categorize_whatsapp" "k3f9" []
                               [EvTimeout]).
Proof.
  split; [reflexivity|]. split; [reflexivity|].
  intros i t p Hin. vm_compute in Hin.
  repeat (apply elem_of_cons in Hin as [Hin|Hin]; [discriminate|]).
  by apply elem_of_nil in Hin.
Qed.

(** C2 on the code: the message callback does not look at [settled].
    After the timeout has settled the call and closed the socket, the
    matching response that arrives late clears the timer, calls
    [resolve] and closes the socket once more; only the promise, which
    keeps its first outcome, hides it from the caller. *)
Theorem late_message_acts_after_timeout :
  settled (callMCP "wss://mcp.example" "categorize_whatsapp" "k3f9" [] [EvOpen; EvTimeout])
  = true
  ∧ promise (callMCP "wss://mcp.example" "categorize_whatsapp" "k3f9" []
               [EvOpen; EvTimeout; EvMessage (Parsed answer_AB)])
    = Some timed_out
  ∧ actions (callMCP "wss://mcp.example" "categorize_whatsapp" "k3f9" []
               [EvOpen; EvTimeout; EvMessage (Parsed answer_AB)])
    = actions (callMCP "wss://mcp.example" "categorize_whatsapp" "k3f9" []
                 [EvOpen; EvTimeout])
      ++ [AClearTimeout;
          ACallResolve (mkResult (JArr [JStr "A"; JStr "B"]) (JArr []) (JNum 0.8));
          AWsClose].
Proof. repeat split. Qed.

(** C3 on the code: the error callback rejects and returns; unlike the
    timeout and the matching response, it never calls [ws.close()]. *)
Theorem transport_error_skips_close :
  promise (callMCP "wss://mcp.example" "categorize_whatsapp" "k3f9" []
             [EvOpen; EvError "ECONNRESET"])
  = Some (Rejected (WsError "ECONNRESET"))
  ∧ actions (callMCP "wss://mcp.example" "categorize_whatsapp" "k3f9" []
               [EvOpen; EvError "ECONNRESET"])
    = [ANewWebSocket "wss://mcp.example"; ASetTimeout WS_TIMEOUT_MS;
       ASend "k3f9" "categorize_whatsapp" []; AClearTimeout;
       ACallReject (WsError "ECONNRESET")]
  ∧ AWsClose ∉ actions (callMCP "wss://mcp.example" "categorize_whatsapp" "k3f9" []
                          [EvOpen; EvError "ECONNRESET"]).
Proof.
  split; [reflexivity|]. split; [reflexivity|].
  intros Hin. vm_compute in Hin.
  repeat (apply elem_of_cons in Hin as [Hin|Hin]; [discriminate|]).
  by apply elem_of_nil in Hin.
Qed.

(** ** The race among the events *)

Section Race.
Variables (wsUrl tool id : string) (payload : list WireItem).

(** What a frame does to a call whose promise has no outcome. *)
Lemma on_message_outcome (frame : Frame) (c : Call) :
  promise c = None →
  match frame_outcome id frame with
  | Some o => promise (on_message id frame c) = Some o
  | None =>
      promise (on_message id frame c) = None
      ∧ settled (on_message id frame c) = settled c || jams id frame
  end.
Proof.
  intros Hp. destruct frame as [|msg]; simpl.
  { by rewrite orb_false_r. }
  destruct (get_prop msg "id") as [v|]; [|by rewrite orb_false_r].
  destruct v; simpl; try by rewrite orb_false_r.
  destruct (String.eqb s id); simpl; [|by rewrite orb_false_r].
  destruct (truthy (field msg "ok")); simpl; [by rewrite Hp|].
  fold (refusal msg). destruct (string_throws (refusal msg)); simpl.
  - by rewrite orb_true_r.
  - by rewrite Hp.
Qed.

Lemma run_race (evs : list Event) (c : Call) :
  coherent c → promise c = None →
  promise (run tool id payload c evs) = race id (settled c) evs.
Proof.
  revert c. induction evs as [|ev evs IH]; intros c Hc Hp; [done|].
  rewrite run_cons.
  pose proof (step_coherent tool id payload c ev Hc) as Hc'.
  pose proof Hc as [Ht _].
  destruct ev as [|frame|err| |]; simpl race.
  - by apply (IH (step tool id payload c EvOpen)).
  - pose proof (on_message_outcome frame c Hp) as Hm.
    destruct (frame_outcome id frame) as [o|].
    + by apply run_promise_kept.
    + destruct Hm as [Hp' Hs']. rewrite <- Hs'. by apply IH.
  - destruct (settled c) eqn:Hs.
    + assert (step tool id payload c (EvError err) = c) as ->
        by (simpl; unfold on_error; by rewrite Hs).
      rewrite (IH c Hc Hp). by rewrite Hs.
    + apply run_promise_kept. simpl. unfold on_error. rewrite Hs. simpl.
      by rewrite Hp.
  - destruct (settled c) eqn:Hs.
    + assert (step tool id payload c EvClose = c) as ->
        by (simpl; unfold on_close; by rewrite Hs).
      rewrite (IH c Hc Hp). by rewrite Hs.
    + apply run_promise_kept. simpl. unfold on_close. rewrite Hs. simpl.
      by rewrite Hp.
  - destruct (settled c) eqn:Hs.
    + assert (step tool id payload c EvTimeout = c) as ->
        by (simpl; by rewrite Ht).
      rewrite (IH c Hc Hp). by rewrite Hs.
    + apply run_promise_kept. simpl. rewrite Ht. unfold timer_fired. simpl.
      rewrite Hs. simpl. by rewrite Hp.
Qed.

(** What one callback adds to the log: the open callback adds the
    request; a callback that does not act adds nothing; every other
    addition consists of settlement actions and leaves [settled] set. *)
Lemma step_log (c : Call) (ev : Event) :
  ∃ added : list Action,
    actions (step tool id payload c ev) = actions c ++ added
    ∧ ((ev = EvOpen ∧ added = [ASend id tool payload]
        ∧ settled (step tool id payload c ev) = settled c)
       ∨ (ev ≠ EvOpen ∧ added = []
          ∧ settled (step tool id payload c ev) = settled c)
       ∨ (ev ≠ EvOpen ∧ Forall (λ a, is_settling a = true) added
          ∧ settled (step tool id payload c ev) = true)).
Proof.
  destruct ev as [|frame|err| |]; simpl.
  - exists [ASend id tool payload]. split; [done|]. by left.
  - destruct (on_message_cases id frame c)
      as [(_ & _ & ->)|[(_ & _ & ->)|(_ & _ & o & _ & ->)]]; simpl.
    + exists []. rewrite app_nil_r. split; [done|]. right; left. done.
    + eexists; split; [reflexivity|]. right; right.
      split; [done|]. split; [by repeat constructor|done].
    + rewrite <- !app_assoc; simpl. eexists; split; [reflexivity|]. right; right.
      split; [done|]. split; [destruct o; by repeat constructor|done].
  - unfold on_error. destruct (settled c) eqn:Hs; simpl.
    { exists []. rewrite app_nil_r. split; [done|]. right; left. done. }
    rewrite <- !app_assoc; simpl. eexists; split; [reflexivity|]. right; right.
    split; [done|]. split; [by repeat constructor|done].
  - unfold on_close. destruct (settled c) eqn:Hs; simpl.
    { exists []. rewrite app_nil_r. split; [done|]. right; left. done. }
    rewrite <- !app_assoc; simpl. eexists; split; [reflexivity|]. right; right.
    split; [done|]. split; [by repeat constructor|done].
  - destruct (timer_pending c).
    2:{ exists []. rewrite app_nil_r. split; [done|]. right; left. done. }
    unfold timer_fired. simpl. destruct (settled c) eqn:Hs; simpl.
    { exists []. rewrite app_nil_r. split; [done|]. right; left. by rewrite ?Hs. }
    rewrite <- !app_assoc; simpl. eexists; split; [reflexivity|]. right; right.
    split; [done|]. split; [by repeat constructor|done].
Qed.

Lemma filter_settling_no_send (l : list Action) :
  Forall (λ a, is_settling a = true) l → filter is_send l = [].
Proof.
  induction 1 as [|a l Ha _ IH]; [done|].
  rewrite filter_cons, IH. by destruct a.
Qed.

Lemma filter_settling_no_socket (l : list Action) :
  Forall (λ a, is_settling a = true) l → filter is_new_socket l = [].
Proof.
  induction 1 as [|a l Ha _ IH]; [done|].
  rewrite filter_cons, IH. by destruct a.
Qed.

Lemma run_sends (evs : list Event) (c : Call) :
  filter is_send (actions (run tool id payload c evs))
  = filter is_send (actions c)
    ++ replicate (length (filter is_open evs)) (ASend id tool payload).
Proof.
  revert c. induction evs as [|ev evs IH]; intros c.
  - simpl. by rewrite app_nil_r.
  - rewrite run_cons, IH.
    destruct (step_log c ev) as (added & -> & [(-> & -> & _)|[(Hev & -> & _)|(Hev & Hall & _)]]).
    + rewrite filter_app, <- app_assoc. done.
    + rewrite app_nil_r. by destruct ev.
    + rewrite filter_app, (filter_settling_no_send _ Hall), app_nil_r.
      by destruct ev.
Qed.

Lemma run_sockets (evs : list Event) (c : Call) :
  filter is_new_socket (actions (run tool id payload c evs))
  = filter is_new_socket (actions c).
Proof.
  revert c. induction evs as [|ev evs IH]; intros c; [done|].
  rewrite run_cons, IH.
  destruct (step_log c ev) as (added & -> & [(-> & -> & _)|[(Hev & -> & _)|(Hev & Hall & _)]]).
  - by rewrite filter_app, app_nil_r.
  - by rewrite app_nil_r.
  - by rewrite filter_app, (filter_settling_no_socket _ Hall), app_nil_r.
Qed.

Lemma run_unsettled_log (evs : list Event) (c : Call) :
  settled (run tool id payload c evs) = false →
  actions (run tool id payload c evs)
  = actions c ++ replicate (length (filter is_open evs)) (ASend id tool payload).
Proof.
  revert c. induction evs as [|ev evs IH]; intros c Hs.
  - simpl. by rewrite app_nil_r.
  - rewrite run_cons in Hs |- *. rewrite (IH _ Hs).
    destruct (step_log c ev) as (added & -> & [(-> & -> & _)|[(Hev & -> & _)|(Hev & _ & Hset)]]).
    + by rewrite <- app_assoc.
    + rewrite app_nil_r. by destruct ev.
    + by rewrite (run_settled_kept tool id payload evs _ Hset) in Hs.
Qed.

(** A jammed call stays without an outcome as long as no frame comes. *)
Lemma jammed_stays (late : list Event) (c : Call) :
  coherent c → settled c = true → promise c = None →
  (∀ frame, EvMessage frame ∉ late) →
  promise (run tool id payload c late) = None.
Proof.
  revert c. induction late as [|ev late IH]; intros c Hc Hs Hp Hno; [done|].
  rewrite run_cons.
  assert (∀ frame, EvMessage frame ∉ late) as Hno'.
  { intros frame Hin. apply (Hno frame). by right. }
  destruct (guarded_callbacks_idle tool id payload c "" Hc Hs) as (Ht & _ & Hcl).
  destruct ev as [|frame|err| |].
  - apply IH; [by apply step_coherent|done..].
  - destruct (Hno frame). by left.
  - destruct (guarded_callbacks_idle tool id payload c err Hc Hs) as (_ & He & _).
    rewrite He. by apply IH.
  - rewrite Hcl. by apply IH.
  - rewrite Ht. by apply IH.
Qed.

(** The error, the close and the expiry of the timer leave [settled]
    set. *)
Lemma final_event_settles (c : Call) (ev : Event) :
  coherent c →
  ev = EvTimeout ∨ ev = EvClose ∨ (∃ err, ev = EvError err) →
  settled (step tool id payload c ev) = true.
Proof.
  intros Hc [->|[->|[err ->]]].
  - by apply timeout_settles.
  - simpl. unfold on_close. by destruct (settled c) eqn:Hs.
  - simpl. unfold on_error. by destruct (settled c) eqn:Hs.
Qed.

Lemma run_final_event_settles (evs : list Event) (c : Call) (ev : Event) :
  coherent c → ev ∈ evs →
  ev = EvTimeout ∨ ev = EvClose ∨ (∃ err, ev = EvError err) →
  settled (run tool id payload c evs) = true.
Proof.
  revert c. induction evs as [|ev' evs IH]; intros c Hc Hin Hev.
  - by apply elem_of_nil in Hin.
  - rewrite run_cons. apply elem_of_cons in Hin as [<-|Hin].
    + by apply run_settled_kept, final_event_settles.
    + apply IH; [by apply step_coherent|done..].
Qed.

End Race.

Lemma unsettled_state (c : Call) :
  coherent c → settled c = false → promise c = None ∧ timer_pending c = true.
Proof. intros [Ht Hp] Hs. rewrite Ht, Hs. split; [by apply Hp|done]. Qed.

Lemma callMCP_app (wsUrl tool id : string) (payload : list WireItem)
    (evs late : list Event) :
  callMCP wsUrl tool id payload (evs ++ late)
  = run tool id payload (callMCP wsUrl tool id payload evs) late.
Proof. unfold callMCP, run. by rewrite foldl_app. Qed.

(** X1: the outcome of a call is the outcome of the winner of the race
    among its events: the first frame with the id of the request that
    gives one (resolved with the normalized answer when [ok] is truthy,
    rejected with the tool's error otherwise), or the first socket
    error, close or expiry of the timer, when no frame with the id has
    set [settled] before it without giving an outcome. Events that give
    none before the winner and all events after it do not count. *)
Theorem outcome_is_race_winner
    (wsUrl tool id : string) (payload : list WireItem) (evs : list Event) :
  promise (callMCP wsUrl tool id payload evs) = race id false evs.
Proof.
  by apply (run_race tool id payload evs (call_start wsUrl));
    [apply call_start_coherent|].
Qed.

(** X2: in every state a call reaches, the timer is pending exactly
    while [settled] is not set, and the promise has an outcome only
    when [settled] is set: no settled call leaves a timer running, and
    nothing resolves or rejects behind the flag. *)
Theorem settled_flag_guards_timer
    (wsUrl tool id : string) (payload : list WireItem) (evs : list Event) :
  timer_pending (callMCP wsUrl tool id payload evs)
  = negb (settled (callMCP wsUrl tool id payload evs))
  ∧ (promise (callMCP wsUrl tool id payload evs) ≠ None →
     settled (callMCP wsUrl tool id payload evs) = true).
Proof.
  destruct (callMCP_coherent wsUrl tool id payload evs) as [Ht Hp].
  split; [done|]. intros Hne.
  destruct (settled (callMCP wsUrl tool id payload evs)); [done|].
  by destruct Hne; apply Hp.
Qed.

(** X3: the requests in the log of a call are one copy of
    [{id, tool, items}] per open event of the trace, and nothing else is
    ever sent; without an open event nothing is sent. *)
Theorem request_sent_once_per_open
    (wsUrl tool id : string) (payload : list WireItem) (evs : list Event) :
  filter is_send (actions (callMCP wsUrl tool id payload evs))
  = replicate (length (filter is_open evs)) (ASend id tool payload).
Proof. unfold callMCP. by rewrite run_sends. Qed.

(** X4: a call creates exactly one socket, to the URL it was given, and
    this is the first thing it does. *)
Theorem one_socket_per_call
    (wsUrl tool id : string) (payload : list WireItem) (evs : list Event) :
  filter is_new_socket (actions (callMCP wsUrl tool id payload evs))
  = [ANewWebSocket wsUrl]
  ∧ head (actions (callMCP wsUrl tool id payload evs)) = Some (ANewWebSocket wsUrl).
Proof.
  split.
  - unfold callMCP. by rewrite run_sockets.
  - destruct (run_actions tool id payload evs (call_start wsUrl)) as (added & H & _).
    unfold callMCP. by rewrite H.
Qed.

(** X5: as long as [settled] is not set, a call has done nothing but
    create the socket, arm the timer and send the request on open: its
    log holds no [clearTimeout], no [ws.close()], no [resolve] and no
    [reject], its promise has no outcome and the timer is still
    pending. *)
Theorem unsettled_call_only_sends
    (wsUrl tool id : string) (payload : list WireItem) (evs : list Event) :
  settled (callMCP wsUrl tool id payload evs) = false →
  actions (callMCP wsUrl tool id payload evs)
  = [ANewWebSocket wsUrl; ASetTimeout WS_TIMEOUT_MS]
    ++ replicate (length (filter is_open evs)) (ASend id tool payload)
  ∧ timer_pending (callMCP wsUrl tool id payload evs) = true
  ∧ promise (callMCP wsUrl tool id payload evs) = None.
Proof.
  intros Hs. split.
  - unfold callMCP in *. by rewrite (run_unsettled_log tool id payload evs _ Hs).
  - destruct (unsettled_state _ (callMCP_coherent wsUrl tool id payload evs) Hs). done.
Qed.

Lemma unsettled_call_only_sends_witness :
  actions (callMCP "wss://mcp.example" "categorize_whatsapp" "k3f9" []
             [EvOpen; EvMessage (Parsed answer_other_id); EvMessage Malformed;
              EvMessage (Parsed JNull)])
  = [ANewWebSocket "wss://mcp.example"; ASetTimeout WS_TIMEOUT_MS;
     ASend "k3f9" "categorize_whatsapp" []].
Proof.
  apply (unsettled_call_only_sends "wss://mcp.example" "categorize_whatsapp" "k3f9" []
           [EvOpen; EvMessage (Parsed answer_other_id); EvMessage Malformed;
            EvMessage (Parsed JNull)]).
  reflexivity.
Defined.

(** X6: when the timer expires on a call whose [settled] is not set, the
    call closes the socket, is rejected with [mcp_timeout], and the
    timer is spent: a second expiry does nothing. *)
Theorem deadline_expiry_rejects_and_closes
    (wsUrl tool id : string) (payload : list WireItem) (evs : list Event) :
  settled (callMCP wsUrl tool id payload evs) = false →
  promise (callMCP wsUrl tool id payload (evs ++ [EvTimeout])) = Some timed_out
  ∧ actions (callMCP wsUrl tool id payload (evs ++ [EvTimeout]))
    = actions (callMCP wsUrl tool id payload evs)
      ++ [AWsClose; ACallReject (NewError (JStr "mcp_timeout"))]
  ∧ callMCP wsUrl tool id payload (evs ++ [EvTimeout; EvTimeout])
    = callMCP wsUrl tool id payload (evs ++ [EvTimeout]).
Proof.
  intros Hs.
  destruct (unsettled_state _ (callMCP_coherent wsUrl tool id payload evs) Hs) as [Hp Ht].
  rewrite !callMCP_app. simpl.
  rewrite Ht. unfold timer_fired. simpl. rewrite Hs. simpl. rewrite Hp.
  by rewrite <- app_assoc.
Qed.

Lemma deadline_expiry_rejects_and_closes_witness :
  promise (callMCP "wss://mcp.example" "categorize_whatsapp" "k3f9" []
             ([EvOpen; EvMessage (Parsed answer_other_id)] ++ [EvTimeout]))
  = Some timed_out.
Proof.
  apply (deadline_expiry_rejects_and_closes "wss://mcp.example" "categorize_whatsapp"
           "k3f9" [] [EvOpen; EvMessage (Parsed answer_other_id)]).
  reflexivity.
Defined.

(** X7: when the socket closes on a call whose [settled] is not set, the
    call clears the timer and is rejected with [mcp_closed]; the expiry
    of the deadline after that does nothing. *)
Theorem premature_close_rejects_and_disarms
    (wsUrl tool id : string) (payload : list WireItem) (evs : list Event) :
  settled (callMCP wsUrl tool id payload evs) = false →
  promise (callMCP wsUrl tool id payload (evs ++ [EvClose])) = Some closed_early
  ∧ actions (callMCP wsUrl tool id payload (evs ++ [EvClose]))
    = actions (callMCP wsUrl tool id payload evs)
      ++ [AClearTimeout; ACallReject (NewError (JStr "mcp_closed"))]
  ∧ callMCP wsUrl tool id payload (evs ++ [EvClose; EvTimeout])
    = callMCP wsUrl tool id payload (evs ++ [EvClose]).
Proof.
  intros Hs.
  destruct (unsettled_state _ (callMCP_coherent wsUrl tool id payload evs) Hs) as [Hp Ht].
  rewrite !callMCP_app. simpl. unfold on_close.
  rewrite Hs. simpl. rewrite Hp.
  by rewrite <- app_assoc.
Qed.

Lemma premature_close_rejects_and_disarms_witness :
  promise (callMCP "wss://mcp.example" "categorize_whatsapp" "k3f9" []
             ([EvOpen] ++ [EvClose]))
  = Some closed_early.
Proof.
  apply (premature_close_rejects_and_disarms "wss://mcp.example" "categorize_whatsapp"
           "k3f9" [] [EvOpen]).
  reflexivity.
Defined.

(** X8: a frame with the id of the request whose [ok] is falsy, and
    whose error can be turned into a string, rejects a call that has no
    outcome with the [error] of the frame, or with [mcp_tool_error] when
    the frame has none (absent, null or empty); the timer is cleared and
    the socket closed. *)
Theorem tool_refusal_rejects (id : string) (c : Call) (msg : jsval) :
  promise c = None →
  get_prop msg "id" = Some (JStr id) →
  truthy (field msg "ok") = false →
  string_throws (if truthy (field msg "error") then field msg "error"
                 else JStr "mcp_tool_error") = false →
  promise (on_message id (Parsed msg) c)
  = Some (Rejected (NewError (if truthy (field msg "error") then field msg "error"
                              else JStr "mcp_tool_error")))
  ∧ actions (on_message id (Parsed msg) c)
    = actions c
      ++ [AClearTimeout;
          ACallReject (NewError (if truthy (field msg "error") then field msg "error"
                                 else JStr "mcp_tool_error"));
          AWsClose]
  ∧ timer_pending (on_message id (Parsed msg) c) = false
  ∧ settled (on_message id (Parsed msg) c) = true.
Proof.
  intros Hp Hid Hok Hstr. rewrite on_message_match by done.
  rewrite Hok. unfold refusal, js_or. rewrite Hstr. simpl. rewrite Hp.
  by rewrite <- !app_assoc.
Qed.

Lemma tool_refusal_rejects_witness :
  promise (on_message "k3f9" (Parsed answer_refused) (call_start "wss://mcp.example"))
  = Some (Rejected (NewError (JStr "quota exceeded")))
  ∧ promise (on_message "k3f9" (Parsed answer_refused_bare) (call_start "wss://mcp.example"))
    = Some (Rejected (NewError (JStr "mcp_tool_error"))).
Proof.
  split.
  - apply (tool_refusal_rejects "k3f9" (call_start "wss://mcp.example") answer_refused);
      reflexivity.
  - apply (tool_refusal_rejects "k3f9" (call_start "wss://mcp.example") answer_refused_bare);
      reflexivity.
Defined.

(** X19: a frame with the id of the request whose [ok] is falsy and whose
    error cannot be turned into a string jams a call whose [settled] is
    not set: the callback clears the timer and sets [settled], and stops
    there, with no [reject] and no [ws.close()]. From then on neither
    the deadline nor a socket error nor a close gives the call an
    outcome; only another frame could. *)
Theorem unconvertible_error_jams_call
    (wsUrl tool id : string) (payload : list WireItem)
    (evs late : list Event) (msg : jsval) :
  settled (callMCP wsUrl tool id payload evs) = false →
  get_prop msg "id" = Some (JStr id) →
  truthy (field msg "ok") = false →
  string_throws (refusal msg) = true →
  (∀ frame, EvMessage frame ∉ late) →
  actions (callMCP wsUrl tool id payload (evs ++ [EvMessage (Parsed msg)]))
  = actions (callMCP wsUrl tool id payload evs) ++ [AClearTimeout]
  ∧ settled (callMCP wsUrl tool id payload (evs ++ [EvMessage (Parsed msg)])) = true
  ∧ timer_pending (callMCP wsUrl tool id payload (evs ++ [EvMessage (Parsed msg)])) = false
  ∧ promise (callMCP wsUrl tool id payload (evs ++ EvMessage (Parsed msg) :: late)) = None.
Proof.
  intros Hs Hid Hok Hthrow Hlate.
  destruct (unsettled_state _ (callMCP_coherent wsUrl tool id payload evs) Hs) as [Hp Ht].
  assert (callMCP wsUrl tool id payload (evs ++ [EvMessage (Parsed msg)])
          = set_settled (clearTimeout (callMCP wsUrl tool id payload evs))) as Hjam.
  { rewrite callMCP_app.
    change (run tool id payload (callMCP wsUrl tool id payload evs) [EvMessage (Parsed msg)])
      with (on_message id (Parsed msg) (callMCP wsUrl tool id payload evs)).
    rewrite on_message_match by done. by rewrite Hok, Hthrow. }
  rewrite Hjam. do 3 (split; [done|]).
  replace (evs ++ EvMessage (Parsed msg) :: late)
    with ((evs ++ [EvMessage (Parsed msg)]) ++ late) by (by rewrite <- app_assoc).
  rewrite callMCP_app. apply jammed_stays; [|by rewrite Hjam..|done].
  apply callMCP_coherent.
Qed.

Lemma unconvertible_error_jams_call_witness :
  promise (callMCP "wss://mcp.example" "categorize_whatsapp" "k3f9" []
             ([EvOpen] ++ EvMessage (Parsed answer_unconvertible)
                           :: [EvTimeout; EvError "ECONNRESET"; EvClose])) = None.
Proof.
  apply (unconvertible_error_jams_call "wss://mcp.example" "categorize_whatsapp" "k3f9" []
           [EvOpen] [EvTimeout; EvError "ECONNRESET"; EvClose] answer_unconvertible);
    try reflexivity.
  intros frame Hin.
  repeat (apply elem_of_cons in Hin as [Hin|Hin]; [discriminate|]).
  by apply elem_of_nil in Hin.
Defined.

(** ** The handler around the call

    The store client is built only after both environment variables
    were found non-empty; building it is taken to succeed. *)

Lemma entry_inr (w : World) (upload_id wsUrl : string) (l : list CandidateRecord) :
  entry w = inr (upload_id, wsUrl, l) →
  req_method w = "POST"
  ∧ missing (req_upload_id w) = false
  ∧ missing (SUPABASE_URL w) = false
  ∧ missing (SUPABASE_SERVICE_ROLE_KEY w) = false
  ∧ missing (MCP_WS_URL w) = false
  ∧ select_error w = None
  ∧ upload_id = default "" (req_upload_id w)
  ∧ wsUrl = default "" (MCP_WS_URL w)
  ∧ l = default [] (select_data w).
Proof.
  unfold entry.
  destruct (String.eqb (req_method w) "POST") eqn:Hm; simpl; [|discriminate].
  apply String.eqb_eq in Hm.
  case_bool_decide; [discriminate|].
  destruct (missing (req_upload_id w)); [discriminate|].
  destruct (missing (SUPABASE_URL w)); simpl; [discriminate|].
  destruct (missing (SUPABASE_SERVICE_ROLE_KEY w)); simpl; [discriminate|].
  destruct (missing (MCP_WS_URL w)); [discriminate|].
  destruct (select_error w); [discriminate|].
  by intros [= <- <- <-].
Qed.

Lemma entry_inl (w : World) (early : Response) :
  entry w = inl early →
  early = End405
  ∨ (∃ status message, early = ErrorJson status message)
  ∨ (early = CaughtJson TypeError ∧ req_method w = "POST" ∧ req_body w = None).
Proof.
  unfold entry. intros H.
  destruct (String.eqb (req_method w) "POST") eqn:Hm; simpl in H;
    [|simplify_eq; eauto].
  apply String.eqb_eq in Hm.
  case_bool_decide; [simplify_eq; eauto|].
  repeat case_match; simplify_eq; eauto.
Qed.


(** The handler, once the checks have passed on a batch that is not
    empty. *)
Lemma handler_call (w : World) (upload_id wsUrl : string) (l : list CandidateRecord) :
  entry w = inr (upload_id, wsUrl, l) → l ≠ [] →
  handler w =
    let c := callMCP wsUrl "categorize_whatsapp" (mcp_id w) (items l) (mcp_events w) in
    match promise c with
    | None => mkRun None (Some c) None
    | Some o => mkRun (Some (after_call w upload_id l o).1) (Some c)
                  (after_call w upload_id l o).2
    end.
Proof.
  intros He Hl. unfold handler. rewrite He.
  rewrite decide_False by (by destruct l). simpl.
  destruct (promise _); [|done]. by destruct (after_call _ _ _ _).
Qed.

Lemma handler_no_call (w : World) :
  (∃ early, entry w = inl early) ∨ (∃ upload_id wsUrl, entry w = inr (upload_id, wsUrl, [])) →
  call (handler w) = None ∧ inserted (handler w) = None.
Proof.
  unfold handler. intros [[early ->]|(upload_id & wsUrl & ->)]; done.
Qed.

(** X9: the handler creates a socket only for a POST request with an
    upload id, in a process with the three environment variables set,
    after a select that succeeded and returned at least one candidate;
    the call it then makes goes to [MCP_WS_URL], for the tool
    [categorize_whatsapp], with the capped items of the batch. *)
Theorem socket_only_after_checks (w : World) (c : Call) :
  call (handler w) = Some c →
  req_method w = "POST"
  ∧ missing (req_upload_id w) = false
  ∧ missing (SUPABASE_URL w) = false
  ∧ missing (SUPABASE_SERVICE_ROLE_KEY w) = false
  ∧ missing (MCP_WS_URL w) = false
  ∧ select_error w = None
  ∧ default [] (select_data w) ≠ []
  ∧ c = callMCP (default "" (MCP_WS_URL w)) "categorize_whatsapp" (mcp_id w)
          (items (default [] (select_data w))) (mcp_events w).
Proof.
  intros Hc.
  destruct (entry w) as [early|[[upload_id wsUrl] l]] eqn:He.
  { destruct (handler_no_call w) as [H _]; [eauto|]. congruence. }
  destruct l as [|r l].
  { destruct (handler_no_call w) as [H _]; [eauto|]. congruence. }
  rewrite (handler_call w upload_id wsUrl (r :: l) He) in Hc by done.
  destruct (entry_inr w _ _ _ He) as (? & ? & ? & ? & ? & ? & _ & -> & Hl).
  rewrite <- Hl. do 6 (split; [done|]). split; [done|].
  simpl in Hc. destruct (promise _); simpl in Hc; congruence.
Qed.

Lemma socket_only_after_checks_witness :
  req_method (world_of two_candidates [EvOpen; EvTimeout]) = "POST"
  ∧ missing (MCP_WS_URL (world_of two_candidates [EvOpen; EvTimeout])) = false.
Proof.
  destruct (socket_only_after_checks (world_of two_candidates [EvOpen; EvTimeout])
              (callMCP "wss://mcp.example" "categorize_whatsapp" "k3f9"
                 (items two_candidates) [EvOpen; EvTimeout]) eq_refl)
    as (Hm & _ & _ & _ & Hu & _).
  split; [exact Hm | exact Hu].
Defined.

(** X10: rows are handed to the store only after the call resolved:
    whatever the handler passes to the insert is the list of rows built
    from the whole batch and from the [assignments] the call resolved
    with, one row per candidate, and it is never an empty list. *)
Theorem rows_inserted_only_after_success (w : World) (rs : list Row) :
  inserted (handler w) = Some rs →
  ∃ (c : Call) (r : McpResult),
    call (handler w) = Some c
    ∧ promise c = Some (Resolved r)
    ∧ rs = rows (default [] (select_data w)) (assignments r)
    ∧ length rs = length (default [] (select_data w))
    ∧ rs ≠ [].
Proof.
  intros Hins.
  destruct (entry w) as [early|[[upload_id wsUrl] l]] eqn:He.
  { destruct (handler_no_call w) as [_ H]; [eauto|]. congruence. }
  destruct l as [|r0 l].
  { destruct (handler_no_call w) as [_ H]; [eauto|]. congruence. }
  destruct (entry_inr w _ _ _ He) as (_ & _ & _ & _ & _ & _ & _ & _ & Hl).
  rewrite (handler_call w upload_id wsUrl (r0 :: l) He) in Hins |- * by done.
  rewrite <- Hl. simpl in *.
  destruct (promise _) as [[r|e]|] eqn:Hp; simpl in *; try discriminate.
  exists (callMCP wsUrl "categorize_whatsapp" (mcp_id w) (items (r0 :: l)) (mcp_events w)), r.
  split; [done|]. split; [done|].
  assert (rs = rows (r0 :: l) (assignments r)) as ->.
  { destruct (insert_error w); simpl in Hins; congruence. }
  split; [done|]. split; [apply rows_length|]. done.
Qed.

Lemma rows_inserted_only_after_success_witness :
  ∃ (c : Call) (r : McpResult),
    call (handler (world_of two_candidates [EvOpen; EvMessage (Parsed answer_AB)])) = Some c
    ∧ promise c = Some (Resolved r)
    ∧ [mkRow (JNum 11) (JStr "A") 0.9%float; mkRow (JNum 12) (JStr "B") 0.9%float]
      = rows two_candidates (assignments r).
Proof.
  destruct (rows_inserted_only_after_success
              (world_of two_candidates [EvOpen; EvMessage (Parsed answer_AB)])
              [mkRow (JNum 11) (JStr "A") 0.9%float; mkRow (JNum 12) (JStr "B") 0.9%float]
              eq_refl)
    as (c & r & Hc & Hp & Hrs & _).
  exists c, r. split; [exact Hc|]. split; [exact Hp | exact Hrs].
Defined.

(** X11: when the insert fails, the handler answers 400 with the message
    of the store, although the call had resolved and the rows had been
    handed over; it never reports success then. *)
Theorem insert_failure_answers_400
    (w : World) (upload_id wsUrl message : string)
    (l : list CandidateRecord) (r : McpResult) :
  entry w = inr (upload_id, wsUrl, l) →
  l ≠ [] →
  promise (callMCP wsUrl "categorize_whatsapp" (mcp_id w) (items l) (mcp_events w))
    = Some (Resolved r) →
  insert_error w = Some message →
  response (handler w) = Some (ErrorJson 400 message)
  ∧ inserted (handler w) = Some (rows l (assignments r)).
Proof.
  intros He Hl Hp Hins.
  rewrite (handler_call w upload_id wsUrl l He Hl). simpl. rewrite Hp. simpl.
  rewrite rows_length, Hins.
  rewrite decide_True by (destruct l; [done|simpl; lia]). done.
Qed.

Lemma insert_failure_answers_400_witness :
  response (handler world_insert_fails) = Some (ErrorJson 400 "duplicate key")
  ∧ inserted (handler world_insert_fails)
    = Some (rows two_candidates (JArr [JStr "A"; JStr "B"])).
Proof.
  apply (insert_failure_answers_400 world_insert_fails "u1" "wss://mcp.example"
           "duplicate key" two_candidates
           (mkResult (JArr [JStr "A"; JStr "B"]) (JArr []) (JNum 0.8))).
  - reflexivity.
  - discriminate.
  - reflexivity.
  - reflexivity.
Defined.



(** X13: every success response echoes the upload id of the request, its
    [categories] is an array, and its [processed] is the number of
    candidates of the batch, which is also the number of rows handed to
    the store. *)
Theorem success_response_shape
    (w : World) (upload_id : string) (processed : nat) (cov cats : jsval) :
  response (handler w) = Some (OkJson upload_id processed cov cats) →
  req_upload_id w = Some upload_id
  ∧ isArray cats = true
  ∧ processed = length (default [] (select_data w))
  ∧ processed = length (default [] (inserted (handler w))).
Proof.
  intros Hresp.
  destruct (entry w) as [early|[[uid wsUrl] l]] eqn:He.
  { unfold handler in Hresp. rewrite He in Hresp. simpl in Hresp.
    destruct (entry_inl w early He) as [->|[(st & m & ->)|(-> & _)]]; discriminate. }
  destruct (entry_inr w _ _ _ He) as (_ & Hu & _ & _ & _ & _ & Huid & _ & Hl).
  assert (req_upload_id w = Some uid) as Hreq.
  { destruct (req_upload_id w); [by simpl in Huid; subst|done]. }
  rewrite <- Hl.
  destruct l as [|r0 l].
  { unfold handler in *. rewrite He in *. simpl in *.
    injection Hresp as <- <- <- <-. done. }
  rewrite (handler_call w uid wsUrl (r0 :: l) He) in Hresp |- * by done.
  simpl in *.
  destruct (promise _) as [[r|e]|] eqn:Hp; simpl in *; try discriminate.
  destruct (insert_error w); simpl in *; [discriminate|].
  injection Hresp as <- <- <- <-.
  split; [done|]. split; [by destruct (isArray (categories r)) eqn:?|].
  by rewrite length_imap.
Qed.

Lemma success_response_shape_witness :
  req_upload_id (world_of two_candidates [EvOpen; EvMessage (Parsed answer_AB)]) = Some "u1"
  ∧ isArray (JArr []) = true
  ∧ 2 = length (default [] (select_data
                   (world_of two_candidates [EvOpen; EvMessage (Parsed answer_AB)])))
  ∧ 2 = length (default [] (inserted
                   (handler (world_of two_candidates [EvOpen; EvMessage (Parsed answer_AB)])))).
Proof.
  apply (success_response_shape
           (world_of two_candidates [EvOpen; EvMessage (Parsed answer_AB)])
           "u1" 2 (JNum 0.8) (JArr [])).
  reflexivity.
Defined.

Lemma call_inv (w : World) (c : Call) :
  call (handler w) = Some c →
  ∃ upload_id wsUrl l,
    entry w = inr (upload_id, wsUrl, l) ∧ l ≠ []
    ∧ l = default [] (select_data w)
    ∧ c = callMCP wsUrl "categorize_whatsapp" (mcp_id w) (items l) (mcp_events w).
Proof.
  intros Hc.
  destruct (entry w) as [early|[[upload_id wsUrl] l]] eqn:He.
  { destruct (handler_no_call w) as [H _]; [eauto|]. congruence. }
  destruct l as [|r l].
  { destruct (handler_no_call w) as [H _]; [eauto|]. congruence. }
  rewrite (handler_call w upload_id wsUrl (r :: l) He) in Hc by done.
  destruct (entry_inr w _ _ _ He) as (_ & _ & _ & _ & _ & _ & _ & _ & Hl).
  exists upload_id, wsUrl, (r :: l). do 3 (split; [done|]).
  simpl in Hc. destruct (promise _); simpl in Hc; congruence.
Qed.

(** X14: every request the handler's call sends carries the id drawn for
    the call, the tool [categorize_whatsapp] and the capped items of the
    batch: at least one and at most 500 of them, numbered from 0 without
    a gap. *)
Theorem envelope_within_cap
    (w : World) (c : Call) (i t : string) (p : list WireItem) :
  call (handler w) = Some c →
  ASend i t p ∈ actions c →
  i = mcp_id w
  ∧ t = "categorize_whatsapp"
  ∧ p = items (default [] (select_data w))
  ∧ (0 < length p ≤ MAX_ITEMS)%nat
  ∧ item_i <$> p = seq 0 (length p).
Proof.
  intros Hc Hin.
  destruct (call_inv w c Hc) as (upload_id & wsUrl & l & _ & Hne & Hl & ->).
  assert (ASend i t p ∈ filter is_send
            (actions (callMCP wsUrl "categorize_whatsapp" (mcp_id w) (items l)
                        (mcp_events w)))) as Hf
    by (by apply list_elem_of_filter).
  unfold callMCP in Hf. rewrite run_sends in Hf. simpl in Hf.
  apply elem_of_replicate_inv in Hf. injection Hf as -> -> ->.
  rewrite <- Hl. do 3 (split; [done|]).
  unfold items. rewrite shape_items_positions, shape_items_length.
  split; [|done].
  destruct l; [done|]. unfold MAX_ITEMS. simpl length. lia.
Qed.

Lemma envelope_within_cap_witness :
  (0 < length (items over_cap) ≤ MAX_ITEMS)%nat.
Proof.
  assert (items over_cap
          = items (default [] (select_data (world_of over_cap [EvOpen])))) as Heq
    by reflexivity.
  rewrite Heq.
  apply (envelope_within_cap (world_of over_cap [EvOpen])
           (callMCP "wss://mcp.example" "categorize_whatsapp" "k3f9"
              (items over_cap) [EvOpen])
           "k3f9" "categorize_whatsapp" (items over_cap)).
  - reflexivity.
  - apply list_elem_of_lookup. exists 2. reflexivity.
Defined.

(** X15: as long as no frame jams the call (a frame with the id of the
    request, a falsy [ok] and an error that cannot be turned into a
    string), the handler does not hang past the deadline: once the
    trace of its call holds the expiry of the timer, a close or a
    socket error, the handler has answered. *)
Theorem handler_answers_after_deadline (w : World) :
  (∀ frame, EvMessage frame ∈ mcp_events w → jams (mcp_id w) frame = false) →
  EvTimeout ∈ mcp_events w ∨ EvClose ∈ mcp_events w
  ∨ (∃ err, EvError err ∈ mcp_events w) →
  is_Some (response (handler w)).
Proof.
  intros Hjam Hev.
  destruct (entry w) as [early|[[upload_id wsUrl] l]] eqn:He.
  { unfold handler. rewrite He. by eexists. }
  destruct l as [|r0 l].
  { unfold handler. rewrite He. by eexists. }
  rewrite (handler_call w upload_id wsUrl (r0 :: l) He) by done.
  simpl.
  destruct (promise _) as [o|] eqn:Hp; [by eexists|].
  exfalso. revert Hp.
  apply (run_answered "categorize_whatsapp" (mcp_id w) (items (r0 :: l))
           (mcp_events w) (call_start wsUrl)); [by intros ?|done|].
  assert (∃ ev, ev ∈ mcp_events w
                ∧ (ev = EvTimeout ∨ ev = EvClose ∨ ∃ err, ev = EvError err))
    as (ev & Hin & Hfinal).
  { destruct Hev as [H|[H|[err H]]]; eauto 6. }
  by apply (run_final_event_settles "categorize_whatsapp" (mcp_id w) (items (r0 :: l))
              (mcp_events w) (call_start wsUrl) ev); [apply call_start_coherent|..].
Qed.

Lemma handler_answers_after_deadline_witness :
  is_Some (response (handler (world_of two_candidates
                                [EvOpen; EvMessage (Parsed answer_other_id); EvTimeout]))).
Proof.
  apply handler_answers_after_deadline.
  - intros frame Hin.
    repeat (apply elem_of_cons in Hin as [Hin|Hin]; [try discriminate|]).
    + injection Hin as ->. reflexivity.
    + by apply elem_of_nil in Hin.
  - left. apply list_elem_of_lookup. exists 2. reflexivity.
Defined.

(** X16: the stub and the handler agree wherever the stub answers
    without looking at the store: on a request it refuses (405, 400)
    the handler gives the same answer, and when the store has no
    candidate for the upload the handler gives the stub's fixed success
    answer; in both cases the handler makes no call and hands no rows to
    the store. *)
Theorem stub_agrees_with_handler (w : World) (r : Response) :
  stub_handler w = Some r →
  ((∀ u n cov cats, r ≠ OkJson u n cov cats) →
   handler w = mkRun (Some r) None None)
  ∧ (missing (MCP_WS_URL w) = false → select_error w = None →
     default [] (select_data w) = [] →
     handler w = mkRun (Some r) None None).
Proof.
  unfold stub_handler, handler, entry.
  destruct (String.eqb (req_method w) "POST"); simpl.
  2:{ by intros [= <-]. }
  case_bool_decide; [discriminate|].
  destruct (missing (req_upload_id w)).
  { by intros [= <-]. }
  destruct (missing (SUPABASE_URL w) || missing (SUPABASE_SERVICE_ROLE_KEY w));
    [discriminate|].
  intros [= <-]. split.
  - intros Hno. by destruct (Hno (default "" (req_upload_id w)) 0 (JNum 1) (JArr [])).
  - intros -> -> ->. done.
Qed.

Lemma stub_agrees_with_handler_witness :
  handler (world_of [] [EvOpen; EvTimeout])
  = mkRun (Some (OkJson "u1" 0 (JNum 1) (JArr []))) None None.
Proof.
  apply (stub_agrees_with_handler (world_of [] [EvOpen; EvTimeout])
           (OkJson "u1" 0 (JNum 1) (JArr [])) eq_refl); reflexivity.
Defined.

(** X17: a candidate beyond what was sent is defaulted: when the tool
    answers with at most one assignment per item of the request, every
    record at a position at or beyond the cap still gets its row, with
    the category ["Other"]. *)
Theorem beyond_cap_defaults_to_other
    (l : list CandidateRecord) (elems : list jsval) (i : nat) (r : CandidateRecord) :
  l !! i = Some r →
  (MAX_ITEMS ≤ i)%nat →
  (length elems ≤ length (items l))%nat →
  rows l (JArr elems) !! i = Some (mkRow (rec_id r) (JStr "Other") 0.9%float).
Proof.
  intros Hr Hi Hlen.
  rewrite rows_lookup, Hr. simpl. unfold to_row. simpl.
  unfold items in Hlen. rewrite shape_items_length in Hlen.
  rewrite lookup_ge_None_2 by lia. done.
Qed.

Lemma beyond_cap_defaults_to_other_witness :
  rows over_cap (JArr [JStr "A"; JStr "B"]) !! 500
  = Some (mkRow (JNum 7) (JStr "Other") 0.9%float).
Proof.
  apply (beyond_cap_defaults_to_other over_cap [JStr "A"; JStr "B"] 500
           (mkCandidate (JNum 7) (JStr "texto") JNull (JArr []))).
  - reflexivity.
  - unfold MAX_ITEMS. lia.
  - apply Nat.leb_le. vm_compute. reflexivity.
Defined.

Lemma handler_with_events (w : World) (evs : list Event) :
  handler (with_events w evs) =
    match entry w with
    | inl early => mkRun (Some early) None None
    | inr (upload_id, wsUrl, l) =>
        if decide (length l = 0)
        then mkRun (Some (OkJson upload_id 0 (JNum 1) (JArr []))) None None
        else
          let c := callMCP wsUrl "categorize_whatsapp" (mcp_id w) (items l) evs in
          match promise c with
          | None => mkRun None (Some c) None
          | Some o =>
              let '(resp, ins) := after_call w upload_id l o in
              mkRun (Some resp) (Some c) ins
          end
    end.
Proof. done. Qed.

(** X18: what the socket delivers after the handler has answered changes
    neither the answer nor what was handed to the store: late frames,
    errors, closes and timer expiries are without effect on the
    result. *)
Theorem late_events_keep_answer
    (w : World) (evs late : list Event) (r : Response) :
  response (handler (with_events w evs)) = Some r →
  response (handler (with_events w (evs ++ late))) = Some r
  ∧ inserted (handler (with_events w (evs ++ late)))
    = inserted (handler (with_events w evs)).
Proof.
  rewrite !handler_with_events.
  destruct (entry w) as [early|[[upload_id wsUrl] l]]; [done|].
  destruct (decide (length l = 0)); [done|]. simpl.
  destruct (promise (callMCP wsUrl "categorize_whatsapp" (mcp_id w) (items l) evs))
    as [o|] eqn:Hp; [|done].
  rewrite (outcome_one_shot wsUrl "categorize_whatsapp" (mcp_id w) (items l) evs late o Hp).
  by destruct (after_call w upload_id l o).
Qed.

Lemma late_events_keep_answer_witness :
  response (handler (with_events (world_of two_candidates [])
                       ([EvOpen; EvTimeout] ++ [EvMessage (Parsed answer_AB); EvClose])))
  = Some (CaughtJson (NewError (JStr "mcp_timeout"))).
Proof.
  apply (late_events_keep_answer (world_of two_candidates []) [EvOpen; EvTimeout]
           [EvMessage (Parsed answer_AB); EvClose]
           (CaughtJson (NewError (JStr "mcp_timeout")))).
  reflexivity.
Defined.
